(** * Text flow and pagination engine of [src/app/page.tsx]

    A shallow embedding of [tokenize], [layoutText] and [computeMetrics]
    together with the properties the specification states about them.

    Conventions of the embedding:
    - a JavaScript string is the list of its UTF-16 code units ([N]);
    - a JavaScript number is an exact rational ([Q]) for the properties
      that do not depend on rounding, and an IEEE 754 double of the kernel
      ([float], module [Doubles]) for those that do: the height of a
      column and the widths [computeMetrics] resolves; a column count is
      an integer ([Z]);
    - the closure variables of [layoutText] ([pages], [currentPage],
      [currentColumnLines], [cursorY], [currentLine], [currentLineWidth])
      are the fields of an explicit [FlowState] threaded through the helpers;
    - every [while] loop whose number of iterations depends on the text
      takes a fuel argument and returns [None] when the fuel is used up;
      the termination theorems show that this never happens once the fuel
      exceeds the length of the text. *)

From Stdlib Require Import List NArith ZArith QArith Qminmax Bool Arith Lia Lqa.
From Stdlib Require Import Morphisms Setoid Qround.
From Stdlib Require Import Floats.
Import ListNotations.

Set Implicit Arguments.

(** ** Strings *)

Module Str.

Definition char := N.
Definition str := list char.

Definition LF : char := 10%N.
Definition CR : char := 13%N.
Definition NBSP : char := 160%N.

(** The character class [\s] of ECMAScript regular expressions:
    WhiteSpace and LineTerminator code points. *)
Definition isSpace (c : char) : bool :=
  ((9 <=? c) && (c <=? 13) || (c =? 32) || (c =? 160) || (c =? 5760)
   || (8192 <=? c) && (c <=? 8202) || (c =? 8232) || (c =? 8233)
   || (c =? 8239) || (c =? 8287) || (c =? 12288) || (c =? 65279))%N.

Fixpoint eqb (a b : str) : bool :=
  match a, b with
  | [], [] => true
  | x :: a', y :: b' => (x =? y)%N && eqb a' b'
  | _, _ => false
  end.

Definition isEmpty (s : str) : bool :=
  match s with [] => true | _ :: _ => false end.

(** [takeWhile p s] is the longest prefix of [s] whose characters satisfy
    [p]; [dropWhile p s] is what follows it. *)
Fixpoint takeWhile (p : char -> bool) (s : str) : str :=
  match s with
  | [] => []
  | c :: s' => if p c then c :: takeWhile p s' else []
  end.

Fixpoint dropWhile (p : char -> bool) (s : str) : str :=
  match s with
  | [] => []
  | c :: s' => if p c then dropWhile p s' else s
  end.

(** [rawLine.replace(/\s+$/u, '')]: the trailing run of white space is
    removed, everything before it is kept. *)
Fixpoint trimEnd (s : str) : str :=
  match s with
  | [] => []
  | c :: s' =>
      match trimEnd s' with
      | [] => if isSpace c then [] else [c]
      | t => c :: t
      end
  end.

(** [text.replace(/\r\n/g, '\n')]: one left-to-right pass over
    non-overlapping matches. *)
Fixpoint normalize (s : str) : str :=
  match s with
  | [] => []
  | c :: s' =>
      match s' with
      | d :: s'' =>
          if ((c =? CR) && (d =? LF))%N then LF :: normalize s''
          else c :: normalize s'
      | [] => [c]
      end
  end.

End Str.

Import Str.

(** ** Option monad for fuelled loops *)

Definition obind {A B : Type} (m : option A) (k : A -> option B) : option B :=
  match m with
  | Some a => k a
  | None => None
  end.

Notation "x <- m ;; k" := (obind m (fun x => k))
  (at level 61, m at next level, right associativity).

(** ** Tokenizer *)

Inductive TokenType := newline | space | word.

Record Token := mkToken { type : TokenType; value : str }.

(** One call of [regex.exec] for [/(\n|\s+|[^\s]+)/g] on the text that
    starts at [lastIndex]: the matched chunk and the text after it, or
    [None] at the end of the text.  The alternatives are tried in order. *)
Definition regexExec (s : str) : option (str * str) :=
  match s with
  | [] => None
  | c :: _ =>
      if (c =? LF)%N then Some ([c], tl s)
      else if isSpace c then Some (takeWhile isSpace s, dropWhile isSpace s)
      else Some (takeWhile (fun x => negb (isSpace x)) s,
                 dropWhile (fun x => negb (isSpace x)) s)
  end.

(** [/^\s+$/.test(chunk)] *)
Definition allSpace (chunk : str) : bool :=
  negb (isEmpty chunk) && forallb isSpace chunk.

(** The body of the [while] loop of [tokenize]: the tokens pushed for one
    chunk. *)
Definition chunkTokens (chunk : str) : list Token :=
  if Str.eqb chunk [LF] then [mkToken newline chunk]
  else if allSpace chunk then
    map (fun ch => if (ch =? LF)%N then mkToken newline [LF]
                   else mkToken space [ch]) chunk
  else [mkToken word chunk].

Fixpoint tokenizeLoop (fuel : nat) (s : str) : option (list Token) :=
  match fuel with
  | O => None
  | S fuel' =>
      match regexExec s with
      | None => Some []
      | Some (chunk, rest) =>
          toks <- tokenizeLoop fuel' rest ;;
          Some (chunkTokens chunk ++ toks)
      end
  end.

Definition tokenizeFuel (fuel : nat) (text : str) : option (list Token) :=
  tokenizeLoop fuel (normalize text).

Definition tokenize (text : str) : option (list Token) :=
  tokenizeFuel (S (length text)) text.

Definition tokenValues (toks : list Token) : str :=
  concat (map value toks).

(** ** Layout data *)

Record Column := mkColumn { lines : list str }.

Record LayoutPage := mkPage { columns : list Column }.

(** [Margins] and [MarginsPx] have the same shape. *)
Record Margins := mkMargins { top : Q; right : Q; bottom : Q; left : Q }.

Record LayoutMetrics := mkMetrics {
  pageWidthPx : Q;
  pageHeightPx : Q;
  marginsPx : Margins;
  columnWidthsPx : list Q;
  columnOffsetsPx : list Q;
  columnHeightPx : Q;
  gapPx : Q;
  fontSizePx : Q;
  lineHeightPx : Q;
  customScale : Q
}.

Module LayoutConfig.
Record t := mk {
  text : str;
  columns : Z;
  fontFamily : str;
  fontSize : Q;
  lineSpacing : Q
}.
End LayoutConfig.

Inductive ColumnMode := equal | custom.

Definition tolerance : Q := 1 # 10.

Definition Qlt_bool (a b : Q) : bool := negb (Qle_bool b a).

Definition mmToPx (mm : Q) : Q := (mm * 96) / (254 # 10).
Definition ptToPx (pt : Q) : Q := (pt * 96) / 72.

Definition PAGE_WIDTH_MM : Q := 210.
Definition PAGE_HEIGHT_MM : Q := 297.

(** [Array.from({ length: columns }, () => ({ lines: [] }))]; a negative
    length gives the empty array. *)
Definition createEmptyPage (columns : Z) : LayoutPage :=
  mkPage (repeat (mkColumn []) (Z.to_nat columns)).

(** ** Flow engine *)

Record FlowState := mkState {
  pages : list LayoutPage;
  currentPage : LayoutPage;
  currentColumnLines : list str;
  cursorY : Q;
  currentLine : str;
  currentLineWidth : Q
}.

Definition initialState : FlowState :=
  mkState [] (mkPage []) [] 0 [] 0.

Section Flow.

(** What the closures of [layoutText] capture. *)
Variable measure : str -> Q.
Variable metrics : LayoutMetrics.
Variable columnCount : Z.
(** Bound on the number of iterations of a single [while] loop. *)
Variable fuel : nat.

Let columnWidths := columnWidthsPx metrics.

(** [columnWidths] is not empty when the closures exist, so the
    [?? columnWidths[0]] alternative only matters for an empty list,
    where the model answers 0 for [undefined]. *)
Definition getColumnWidth (st : FlowState) : Q :=
  let idx := length (columns (currentPage st)) in
  match nth_error columnWidths idx with
  | Some w => w
  | None => last columnWidths (hd 0 columnWidths)
  end.

Definition finishColumn (st : FlowState) : FlowState :=
  let cols := columns (currentPage st) ++ [mkColumn (currentColumnLines st)] in
  if (Z.of_nat (length cols) =? columnCount)%Z then
    mkState (pages st ++ [mkPage cols]) (mkPage []) [] 0
            (currentLine st) (currentLineWidth st)
  else
    mkState (pages st) (mkPage cols) [] 0
            (currentLine st) (currentLineWidth st).

Definition ensureColumnSpaceForNextLine (st : FlowState) : FlowState :=
  if Qle_bool (cursorY st + lineHeightPx metrics)
              (columnHeightPx metrics + tolerance)
  then st
  else finishColumn st.

Definition commitLine (rawLine : str) (st : FlowState) : FlowState :=
  let trimmed := trimEnd rawLine in
  let st1 := ensureColumnSpaceForNextLine st in
  mkState (pages st1) (currentPage st1)
          (currentColumnLines st1
             ++ [if isEmpty trimmed then [NBSP] else trimmed])
          (cursorY st1 + lineHeightPx metrics)
          [] 0.

(** The inner [while (low <= high)] loop of [splitLongWord]. *)
Fixpoint binarySearch (n : nat) (remaining : str) (columnWidth : Q)
         (low high best : nat) : option nat :=
  match n with
  | O => None
  | S n' =>
      if (low <=? high)%nat then
        let mid := Nat.div (low + high) 2 in
        let candidate := firstn mid remaining in
        let width := measure candidate in
        if Qle_bool width (columnWidth + tolerance) then
          binarySearch n' remaining columnWidth (mid + 1) high mid
        else
          binarySearch n' remaining columnWidth low (mid - 1) best
      else Some best
  end.

(** The search for [best] in one iteration of [splitLongWord], with
    [if (best === 0) best = 1]. *)
Definition chooseBest (remaining : str) (columnWidth : Q) : option nat :=
  found <- binarySearch fuel remaining columnWidth 1 (length remaining) 0 ;;
  Some (if (found =? 0)%nat then 1%nat else found).

(** The outer [while (remaining.length > 0)] loop of [splitLongWord]. *)
Fixpoint splitLoop (n : nat) (remaining : str) (st : FlowState)
  : option FlowState :=
  match n with
  | O => None
  | S n' =>
      if (0 <? length remaining)%nat then
        let columnWidth := getColumnWidth st in
        let st1 := ensureColumnSpaceForNextLine st in
        best <- chooseBest remaining columnWidth ;;
        let segment := firstn best remaining in
        if (best =? length remaining)%nat then
          splitLoop n' []
            (mkState (pages st1) (currentPage st1) (currentColumnLines st1)
                     (cursorY st1) segment (measure segment))
        else
          splitLoop n' (skipn best remaining) (commitLine segment st1)
      else Some st
  end.

Definition splitLongWord (w : str) (st : FlowState) : option FlowState :=
  splitLoop fuel w st.

(** The body of [for (const token of tokens)]. *)
Definition processToken (token : Token) (st : FlowState)
  : option FlowState :=
  match type token with
  | newline =>
      if negb (isEmpty (currentLine st))
      then Some (commitLine (currentLine st) st)
      else Some (commitLine [] st)
  | space =>
      if isEmpty (currentLine st) then Some st
      else
        let columnWidth := getColumnWidth st in
        let width := measure (value token) in
        if Qle_bool (currentLineWidth st + width) (columnWidth + tolerance)
        then Some (mkState (pages st) (currentPage st)
                           (currentColumnLines st) (cursorY st)
                           (currentLine st ++ value token)
                           (currentLineWidth st + width))
        else Some (commitLine (currentLine st) st)
  | word =>
      let columnWidth := getColumnWidth st in
      let width := measure (value token) in
      let st1 :=
        if Qlt_bool 0 (currentLineWidth st)
           && Qlt_bool (columnWidth + tolerance) (currentLineWidth st + width)
        then commitLine (currentLine st) st
        else st in
      if Qle_bool width (columnWidth + tolerance) then
        let st2 := if isEmpty (currentLine st1)
                   then ensureColumnSpaceForNextLine st1
                   else st1 in
        Some (mkState (pages st2) (currentPage st2)
                      (currentColumnLines st2) (cursorY st2)
                      (currentLine st2 ++ value token)
                      (currentLineWidth st2 + width))
      else
        let st2 := if negb (isEmpty (currentLine st1))
                   then commitLine (currentLine st1) st1
                   else st1 in
        splitLongWord (value token) st2
  end.

Fixpoint processTokens (tokens : list Token) (st : FlowState)
  : option FlowState :=
  match tokens with
  | [] => Some st
  | token :: rest =>
      st' <- processToken token st ;;
      processTokens rest st'
  end.

(** [while (currentPage.columns.length < columnCount) push({ lines: [] })],
    by recursion on the number [missing] of columns still to be added. *)
Fixpoint padLoop (missing : nat) (cols : list Column) : list Column :=
  match missing with
  | O => cols
  | S missing' => padLoop missing' (cols ++ [mkColumn []])
  end.

Definition padColumns (cols : list Column) : list Column :=
  padLoop (Z.to_nat (columnCount - Z.of_nat (length cols))) cols.

(** What follows the token loop: the last line, the last column, the
    last page, and the page made up when there is none. *)
Definition finishLayout (st : FlowState) : list LayoutPage :=
  let st1 := if negb (isEmpty (currentLine st))
             then commitLine (currentLine st) st
             else st in
  let pages1 :=
    if (0 <? length (currentColumnLines st1))%nat
       || (0 <? length (columns (currentPage st1)))%nat
    then pages st1
         ++ [mkPage (padColumns (columns (currentPage st1)
                                   ++ [mkColumn (currentColumnLines st1)]))]
    else pages st1 in
  if (length pages1 =? 0)%nat then [createEmptyPage columnCount]
  else pages1.

Definition flow (tokens : list Token) : option (list LayoutPage) :=
  st <- processTokens tokens initialState ;;
  Some (finishLayout st).

End Flow.

(** ** [layoutText] *)

(** What the browser offers: no [window] (rendering on the server), a
    [window] whose canvas gives no 2D context, or a context that measures
    a string for a font size in pixels and a font family. *)
Inductive Backend :=
| NoWindow
| NoContext
| Canvas (measureText : Q -> str -> str -> Q).

Definition columnCountOf (config : LayoutConfig.t) : Z :=
  Z.max (LayoutConfig.columns config) 1.

Definition layoutTextFuel (fuel : nat) (backend : Backend)
           (config : LayoutConfig.t) (metrics : LayoutMetrics)
  : option (list LayoutPage) :=
  match backend with
  | NoWindow => Some [createEmptyPage (LayoutConfig.columns config)]
  | _ =>
      let columnWidths := columnWidthsPx metrics in
      let columnCount := columnCountOf config in
      if (length columnWidths =? 0)%nat then
        Some [createEmptyPage columnCount]
      else
        match backend with
        | Canvas measureText =>
            let measure :=
              measureText (fontSizePx metrics) (LayoutConfig.fontFamily config) in
            tokens <- tokenizeFuel fuel (LayoutConfig.text config) ;;
            flow measure metrics columnCount fuel tokens
        | _ => Some [createEmptyPage columnCount]
        end
  end.

Definition layoutText (backend : Backend) (config : LayoutConfig.t)
           (metrics : LayoutMetrics) : option (list LayoutPage) :=
  layoutTextFuel (S (length (LayoutConfig.text config))) backend config metrics.

(** ** [computeMetrics] *)

Definition sumQ (l : list Q) : Q := fold_left Qplus l 0.

(** The [forEach] that fills [columnOffsetsPx]; [total] is
    [columnWidthsPx.length]. *)
Fixpoint columnOffsets (total : nat) (gap : Q) (index : nat) (offset : Q)
         (widths : list Q) : list Q :=
  match widths with
  | [] => []
  | width :: rest =>
      offset :: columnOffsets total gap (S index)
                  (offset + (width + (if (index <? total - 1)%nat
                                      then gap else 0)))
                  rest
  end.

Definition gapCount (columns : Z) : Q := inject_Z (Z.max (columns - 1) 0).

Definition contentWidthPx (margins : Margins) : Q :=
  Qmax (mmToPx PAGE_WIDTH_MM - mmToPx (left margins) - mmToPx (right margins)) 1.

Definition availableWidthPx (columns : Z) (gapMm : Q) (margins : Margins) : Q :=
  Qmax (contentWidthPx margins - mmToPx gapMm * gapCount columns) 1.

Definition availableWidthMm (columns : Z) (gapMm : Q) (margins : Margins) : Q :=
  Qmax (PAGE_WIDTH_MM - left margins - right margins
        - gapMm * gapCount columns) 1.

(** [columnWidthsMm.slice(0, columnCount).map((value) => Math.max(value, 0))] *)
Definition requestedWidths (columnCount : Z) (columnWidthsMm : list Q) : list Q :=
  map (fun value => Qmax value 0) (firstn (Z.to_nat columnCount) columnWidthsMm).

(** The pair [(columnWidthsPx, scale)] after the [if (mode === 'equal')]
    statement. *)
Definition resolveWidths (columns : Z) (mode : ColumnMode)
           (columnWidthsMm : list Q) (gapMm : Q) (margins : Margins)
  : list Q * Q :=
  let columnCount := Z.max columns 1 in
  match mode with
  | equal =>
      let width := availableWidthPx columns gapMm margins / inject_Z columnCount in
      (repeat width (Z.to_nat columnCount), 1)
  | custom =>
      let requested := requestedWidths columnCount columnWidthsMm in
      let sum := sumQ requested in
      if Qle_bool sum 0 then
        let fallback :=
          availableWidthPx columns gapMm margins / inject_Z columnCount in
        (repeat fallback (Z.to_nat columnCount), 1)
      else
        let scale := availableWidthMm columns gapMm margins / sum in
        (map (fun value => mmToPx (value * scale)) requested, scale)
  end.

Definition computeMetrics (columns : Z) (mode : ColumnMode)
           (columnWidthsMm : list Q) (gapMm : Q) (margins : Margins)
           (fontSize lineSpacing : Q) : LayoutMetrics :=
  let pageWidth := mmToPx PAGE_WIDTH_MM in
  let pageHeight := mmToPx PAGE_HEIGHT_MM in
  let mpx := mkMargins (mmToPx (top margins)) (mmToPx (right margins))
                       (mmToPx (bottom margins)) (mmToPx (left margins)) in
  let gap := mmToPx gapMm in
  let '(widths, scale) := resolveWidths columns mode columnWidthsMm gapMm margins in
  let offsets := columnOffsets (length widths) gap 0 0 widths in
  let columnHeight := Qmax (pageHeight - top mpx - bottom mpx) 16 in
  let fontPx := ptToPx fontSize in
  mkMetrics pageWidth pageHeight mpx widths offsets columnHeight gap
            fontPx (fontPx * lineSpacing) scale.


(** The lines laid out so far, in reading order. *)
Definition pageLines (p : LayoutPage) : list str :=
  concat (map lines (columns p)).

Definition allLines (st : FlowState) : list str :=
  concat (map pageLines (pages st))
  ++ pageLines (currentPage st) ++ currentColumnLines st.

(** What the third alternative [[^\s]+] of the regular expression
    matches. *)
Definition isWord (s : str) : bool :=
  negb (isEmpty s) && forallb (fun c => negb (isSpace c)) s.

(** ** The engine on IEEE 754 doubles

    Where a column breaks depends on the rounding of the additions that
    move [cursorY], and what [computeMetrics] resolves depends on the
    rounding (and overflow) of its products and quotients.  [Doubles]
    embeds [layoutText] and [computeMetrics] once more, statement by
    statement, on the binary64 numbers of the kernel, for the properties
    that depend on it.  Strings, tokens, pages and column counts are the
    ones above. *)

Module Doubles.

#[local] Set Warnings "-inexact-float".
Local Open Scope float_scope.

Definition tolerance : float := 0.1.

(** [Math.max] of two numbers: NaN if one of them is, and [+0] for the
    two zeros. *)
Definition fmax (a b : float) : float :=
  if PrimFloat.is_nan a || PrimFloat.is_nan b then nan
  else if a <? b then b
  else if b <? a then a
  else match PrimFloat.classify a with
       | NZero => b
       | _ => a
       end.

(** A count as a number: the double nearest to the integer. *)
Definition ofZ (z : Z) : float :=
  SF2Prim (SpecFloat.binary_normalize prec emax z 0 false).

Definition ofNat (n : nat) : float := ofZ (Z.of_nat n).

Definition mmToPx (mm : float) : float := (mm * 96) / 25.4.
Definition ptToPx (pt : float) : float := (pt * 96) / 72.

Definition PAGE_WIDTH_MM : float := 210.
Definition PAGE_HEIGHT_MM : float := 297.

Record Margins := mkMargins {
  top : float; right : float; bottom : float; left : float
}.

Record LayoutMetrics := mkMetrics {
  pageWidthPx : float;
  pageHeightPx : float;
  marginsPx : Margins;
  columnWidthsPx : list float;
  columnOffsetsPx : list float;
  columnHeightPx : float;
  gapPx : float;
  fontSizePx : float;
  lineHeightPx : float;
  customScale : float
}.

Record LayoutConfig := mkConfig {
  text : str;
  configColumns : Z;
  fontFamily : str;
  fontSize : float;
  lineSpacing : float
}.

Record FlowState := mkState {
  pages : list LayoutPage;
  currentPage : LayoutPage;
  currentColumnLines : list str;
  cursorY : float;
  currentLine : str;
  currentLineWidth : float
}.

Definition initialState : FlowState :=
  mkState [] (mkPage []) [] 0 [] 0.

Section Flow.

Variable measure : str -> float.
Variable metrics : LayoutMetrics.
Variable columnCount : Z.
Variable fuel : nat.

Let columnWidths := columnWidthsPx metrics.

(** For an empty list, which [layoutText] excludes, the model answers NaN
    for [undefined]. *)
Definition getColumnWidth (st : FlowState) : float :=
  let idx := length (columns (currentPage st)) in
  match nth_error columnWidths idx with
  | Some w => w
  | None => last columnWidths (hd nan columnWidths)
  end.

Definition finishColumn (st : FlowState) : FlowState :=
  let cols := columns (currentPage st) ++ [mkColumn (currentColumnLines st)] in
  if (Z.of_nat (length cols) =? columnCount)%Z then
    mkState (pages st ++ [mkPage cols]) (mkPage []) [] 0
            (currentLine st) (currentLineWidth st)
  else
    mkState (pages st) (mkPage cols) [] 0
            (currentLine st) (currentLineWidth st).

Definition ensureColumnSpaceForNextLine (st : FlowState) : FlowState :=
  if cursorY st + lineHeightPx metrics <=? columnHeightPx metrics + tolerance
  then st
  else finishColumn st.

Definition commitLine (rawLine : str) (st : FlowState) : FlowState :=
  let trimmed := trimEnd rawLine in
  let st1 := ensureColumnSpaceForNextLine st in
  mkState (pages st1) (currentPage st1)
          (currentColumnLines st1
             ++ [if isEmpty trimmed then [NBSP] else trimmed])
          (cursorY st1 + lineHeightPx metrics)
          [] 0.

Fixpoint binarySearch (n : nat) (remaining : str) (columnWidth : float)
         (low high best : nat) : option nat :=
  match n with
  | O => None
  | S n' =>
      if (low <=? high)%nat then
        let mid := Nat.div (low + high) 2 in
        let candidate := firstn mid remaining in
        let width := measure candidate in
        if width <=? columnWidth + tolerance then
          binarySearch n' remaining columnWidth (mid + 1) high mid
        else
          binarySearch n' remaining columnWidth low (mid - 1) best
      else Some best
  end.

Definition chooseBest (remaining : str) (columnWidth : float) : option nat :=
  found <- binarySearch fuel remaining columnWidth 1 (length remaining) 0 ;;
  Some (if (found =? 0)%nat then 1%nat else found).

Fixpoint splitLoop (n : nat) (remaining : str) (st : FlowState)
  : option FlowState :=
  match n with
  | O => None
  | S n' =>
      if (0 <? length remaining)%nat then
        let columnWidth := getColumnWidth st in
        let st1 := ensureColumnSpaceForNextLine st in
        best <- chooseBest remaining columnWidth ;;
        let segment := firstn best remaining in
        if (best =? length remaining)%nat then
          splitLoop n' []
            (mkState (pages st1) (currentPage st1) (currentColumnLines st1)
                     (cursorY st1) segment (measure segment))
        else
          splitLoop n' (skipn best remaining) (commitLine segment st1)
      else Some st
  end.

Definition splitLongWord (w : str) (st : FlowState) : option FlowState :=
  splitLoop fuel w st.

Definition processToken (token : Token) (st : FlowState)
  : option FlowState :=
  match type token with
  | newline =>
      if negb (isEmpty (currentLine st))
      then Some (commitLine (currentLine st) st)
      else Some (commitLine [] st)
  | space =>
      if isEmpty (currentLine st) then Some st
      else
        let columnWidth := getColumnWidth st in
        let width := measure (value token) in
        if currentLineWidth st + width <=? columnWidth + tolerance
        then Some (mkState (pages st) (currentPage st)
                           (currentColumnLines st) (cursorY st)
                           (currentLine st ++ value token)
                           (currentLineWidth st + width))
        else Some (commitLine (currentLine st) st)
  | word =>
      let columnWidth := getColumnWidth st in
      let width := measure (value token) in
      let st1 :=
        if (0 <? currentLineWidth st)
           && (columnWidth + tolerance <? currentLineWidth st + width)
        then commitLine (currentLine st) st
        else st in
      if width <=? columnWidth + tolerance then
        let st2 := if isEmpty (currentLine st1)
                   then ensureColumnSpaceForNextLine st1
                   else st1 in
        Some (mkState (pages st2) (currentPage st2)
                      (currentColumnLines st2) (cursorY st2)
                      (currentLine st2 ++ value token)
                      (currentLineWidth st2 + width))
      else
        let st2 := if negb (isEmpty (currentLine st1))
                   then commitLine (currentLine st1) st1
                   else st1 in
        splitLongWord (value token) st2
  end.

Fixpoint processTokens (tokens : list Token) (st : FlowState)
  : option FlowState :=
  match tokens with
  | [] => Some st
  | token :: rest =>
      st' <- processToken token st ;;
      processTokens rest st'
  end.

Fixpoint padLoop (missing : nat) (cols : list Column) : list Column :=
  match missing with
  | O => cols
  | S missing' => padLoop missing' (cols ++ [mkColumn []])
  end.

Definition padColumns (cols : list Column) : list Column :=
  padLoop (Z.to_nat (columnCount - Z.of_nat (length cols))) cols.

Definition finishLayout (st : FlowState) : list LayoutPage :=
  let st1 := if negb (isEmpty (currentLine st))
             then commitLine (currentLine st) st
             else st in
  let pages1 :=
    if (0 <? length (currentColumnLines st1))%nat
       || (0 <? length (columns (currentPage st1)))%nat
    then pages st1
         ++ [mkPage (padColumns (columns (currentPage st1)
                                   ++ [mkColumn (currentColumnLines st1)]))]
    else pages st1 in
  if (length pages1 =? 0)%nat then [createEmptyPage columnCount]
  else pages1.

Definition flow (tokens : list Token) : option (list LayoutPage) :=
  st <- processTokens tokens initialState ;;
  Some (finishLayout st).

End Flow.

Inductive Backend :=
| NoWindow
| NoContext
| Canvas (measureText : float -> str -> str -> float).

Definition columnCountOf (config : LayoutConfig) : Z :=
  Z.max (configColumns config) 1.

Definition layoutTextFuel (fuel : nat) (backend : Backend)
           (config : LayoutConfig) (metrics : LayoutMetrics)
  : option (list LayoutPage) :=
  match backend with
  | NoWindow => Some [createEmptyPage (configColumns config)]
  | _ =>
      let columnWidths := columnWidthsPx metrics in
      let columnCount := columnCountOf config in
      if (length columnWidths =? 0)%nat then
        Some [createEmptyPage columnCount]
      else
        match backend with
        | Canvas measureText =>
            let measure :=
              measureText (fontSizePx metrics) (fontFamily config) in
            tokens <- tokenizeFuel fuel (text config) ;;
            flow measure metrics columnCount fuel tokens
        | _ => Some [createEmptyPage columnCount]
        end
  end.

Definition layoutText (backend : Backend) (config : LayoutConfig)
           (metrics : LayoutMetrics) : option (list LayoutPage) :=
  layoutTextFuel (S (length (text config))) backend config metrics.

(** [Math.min] of two numbers: NaN if one of them is, and [-0] for the
    two zeros. *)
Definition fmin (a b : float) : float :=
  if PrimFloat.is_nan a || PrimFloat.is_nan b then nan
  else if a <? b then a
  else if b <? a then b
  else match PrimFloat.classify b with
       | NZero => b
       | _ => a
       end.

(** The handler of the columns input: the number typed and the state
    [columns], to the next state. *)
Definition MIN_COLUMNS : float := 1.
Definition MAX_COLUMNS : float := 12.

Definition onColumnsChange (value columns : float) : float :=
  if PrimFloat.is_nan value then columns
  else fmin (fmax value MIN_COLUMNS) MAX_COLUMNS.

(** The state [columns], 8 at first, after the numbers typed. *)
Definition columnsAfter (events : list float) : float :=
  fold_left (fun columns value => onColumnsChange value columns) events 8.

Definition inRange (c : float) : Prop :=
  (MIN_COLUMNS <=? c) = true /\ (c <=? MAX_COLUMNS) = true.

(** [computeMetrics] *)

Definition sum (l : list float) : float := fold_left PrimFloat.add l 0.

Fixpoint columnOffsets (total : nat) (gap : float) (index : nat)
         (offset : float) (widths : list float) : list float :=
  match widths with
  | [] => []
  | width :: rest =>
      offset :: columnOffsets total gap (S index)
                  (offset + (width + (if (index <? total - 1)%nat
                                      then gap else 0)))
                  rest
  end.

Definition gapCount (columns : Z) : float := ofZ (Z.max (columns - 1) 0).

Definition contentWidthPx (margins : Margins) : float :=
  fmax (mmToPx PAGE_WIDTH_MM - mmToPx (left margins) - mmToPx (right margins))
       1.

Definition availableWidthPx (columns : Z) (gapMm : float) (margins : Margins)
  : float :=
  fmax (contentWidthPx margins - mmToPx gapMm * gapCount columns) 1.

Definition availableWidthMm (columns : Z) (gapMm : float) (margins : Margins)
  : float :=
  fmax (PAGE_WIDTH_MM - left margins - right margins
        - gapMm * gapCount columns) 1.

Definition requestedWidths (columnCount : Z) (columnWidthsMm : list float)
  : list float :=
  map (fun value => fmax value 0) (firstn (Z.to_nat columnCount) columnWidthsMm).

Definition resolveWidths (columns : Z) (mode : ColumnMode)
           (columnWidthsMm : list float) (gapMm : float) (margins : Margins)
  : list float * float :=
  let columnCount := Z.max columns 1 in
  match mode with
  | equal =>
      let width := availableWidthPx columns gapMm margins / ofZ columnCount in
      (repeat width (Z.to_nat columnCount), 1)
  | custom =>
      let requested := requestedWidths columnCount columnWidthsMm in
      let total := sum requested in
      if total <=? 0 then
        let fallback :=
          availableWidthPx columns gapMm margins / ofZ columnCount in
        (repeat fallback (Z.to_nat columnCount), 1)
      else
        let scale := availableWidthMm columns gapMm margins / total in
        (map (fun value => mmToPx (value * scale)) requested, scale)
  end.

Definition computeMetrics (columns : Z) (mode : ColumnMode)
           (columnWidthsMm : list float) (gapMm : float) (margins : Margins)
           (fontSize lineSpacing : float) : LayoutMetrics :=
  let pageWidth := mmToPx PAGE_WIDTH_MM in
  let pageHeight := mmToPx PAGE_HEIGHT_MM in
  let mpx := mkMargins (mmToPx (top margins)) (mmToPx (right margins))
                       (mmToPx (bottom margins)) (mmToPx (left margins)) in
  let gap := mmToPx gapMm in
  let '(widths, scale) :=
    resolveWidths columns mode columnWidthsMm gapMm margins in
  let offsets := columnOffsets (length widths) gap 0 0 widths in
  let columnHeight := fmax (pageHeight - top mpx - bottom mpx) 16 in
  let fontPx := ptToPx fontSize in
  mkMetrics pageWidth pageHeight mpx widths offsets columnHeight gap
            fontPx (fontPx * lineSpacing) scale.

(** The cursor after [n] lines: [lineHeightPx] added [n] times to 0, as
    [commitLine] does. *)
Fixpoint accumulated (lineHeight : float) (n : nat) : float :=
  match n with
  | O => 0
  | S k => accumulated lineHeight k + lineHeight
  end.

(** [lines.length * lineHeightPx <= columnHeightPx + 0.1], the bound of
    the specification. *)
Definition columnFits (metrics : LayoutMetrics) (c : Column) : bool :=
  ofNat (length (lines c)) * lineHeightPx metrics
  <=? columnHeightPx metrics + tolerance.

(** The bound the code keeps: the cursor of the column, as accumulated,
    is within the height, or the column holds at most one line. *)
Definition columnBounded (metrics : LayoutMetrics) (c : Column) : Prop :=
  (length (lines c) <= 1)%nat
  \/ (accumulated (lineHeightPx metrics) (length (lines c))
      <=? columnHeightPx metrics + tolerance) = true.

Record HeightInv (metrics : LayoutMetrics) (st : FlowState) : Prop := {
  cursor_lines :
    cursorY st
    = accumulated (lineHeightPx metrics) (length (currentColumnLines st));
  current_bounded : columnBounded metrics (mkColumn (currentColumnLines st));
  page_bounded : Forall (columnBounded metrics) (columns (currentPage st));
  pages_bounded :
    Forall (fun p => Forall (columnBounded metrics) (columns p)) (pages st)
}.

(** Inputs of the examples. *)
Definition tenPerChar : float -> str -> str -> float :=
  fun _ _ s => ofNat (10 * length s).

Definition formMargins (topMm : float) : Margins := mkMargins topMm 10 10 10.

(** Two columns, margins of 10mm but for the top one, 12pt, spacing 1.4:
    the column is 940.6999999999998px high, a line 22.4px. *)
Definition tieMetrics : LayoutMetrics :=
  computeMetrics 2 equal [] 2 (formMargins 38.10645833333338) 12 1.4.

Definition tieConfig : LayoutConfig := mkConfig (repeat LF 43) 2 [] 12 1.4.

(** A line of 20px for a column of 16px. *)
Definition tallLineMetrics : LayoutMetrics :=
  mkMetrics 794 1123 (mkMargins 0 0 0 0) [100] [0] 16 0 16 20 1.

Definition tallLineConfig : LayoutConfig := mkConfig [97%N] 1 [] 12 1.

(** Twelve columns with a gap of 17.2mm between margins of 10mm: 0.8mm
    are left for the columns. *)
Definition narrowMargins : Margins := mkMargins 10 10 10 10.

Definition narrowCustom : LayoutMetrics :=
  computeMetrics 12 custom (repeat 10 12) 17.2 narrowMargins 12 1.4.

Definition narrowEqual : LayoutMetrics :=
  computeMetrics 12 equal [] 17.2 narrowMargins 12 1.4.

Definition narrowAvailablePx : float := availableWidthPx 12 17.2 narrowMargins.

Definition narrowAvailableMm : float := availableWidthMm 12 17.2 narrowMargins.

(** Two requested widths whose sum is beyond the largest double. *)
Definition hugeCustom : LayoutMetrics :=
  computeMetrics 2 custom [1e308; 1e308] 2 narrowMargins 12 1.4.

End Doubles.

(** ** Concrete inputs used in the examples *)

(** A measurement service that gives every code unit 10px. *)
Definition tenPerChar : Q -> str -> str -> Q :=
  fun _ _ s => inject_Z (10 * Z.of_nat (length s)).

Definition sampleMetrics (widths : list Q) (columnHeight lineHeight : Q)
  : LayoutMetrics :=
  mkMetrics 794 1123 (mkMargins 0 0 0 0) widths [] columnHeight 0
            16 lineHeight 1.

Definition sampleConfig (text : str) (columns : Z) : LayoutConfig.t :=
  LayoutConfig.mk text columns [] 12 1.

Definition letters (c : char) (n : nat) : str := repeat c n.

(** ** Predicates of the specification *)


Definition everyColumn (P : Column -> Prop) (pgs : list LayoutPage) : Prop :=
  Forall (fun p => Forall P (columns p)) pgs.

Definition columnEmpty (c : Column) : Prop := lines c = [].

Definition hasColumns (n : nat) (p : LayoutPage) : Prop :=
  length (columns p) = n.

(** The state of the page accounting. *)
Record CountInv (columnCount : Z) (st : FlowState) : Prop := {
  pages_full : Forall (hasColumns (Z.to_nat columnCount)) (pages st);
  page_open : (length (columns (currentPage st)) < Z.to_nat columnCount)%nat
}.

(** ** Further predicates and the code around the engine *)

(** The characters of a string that are not white space: what is drawn. *)
Definition ink (s : str) : str := filter (fun c => negb (isSpace c)) s.

(** The lines of a list of pages, in reading order. *)
Definition layoutLines (pgs : list LayoutPage) : list str :=
  concat (map pageLines pgs).

(** The shape of a token: a newline holds a line feed, a space one
    white-space character that is no line feed, a word a non-empty run
    without white space. *)
Definition tokenWellFormed (t : Token) : bool :=
  match type t with
  | newline => Str.eqb (value t) [LF]
  | space =>
      match value t with
      | [c] => isSpace c && negb (c =? LF)%N
      | _ => false
      end
  | word => isWord (value t)
  end.

Definition isWordToken (t : Token) : bool :=
  match type t with word => true | _ => false end.

Fixpoint wordsSeparated (toks : list Token) : bool :=
  match toks with
  | [] => true
  | t :: rest =>
      match rest with
      | [] => true
      | u :: _ => negb (isWordToken t && isWordToken u) && wordsSeparated rest
      end
  end.

Definition startsWithSpace (s : str) : Prop :=
  s = [] \/ exists c r, s = c :: r /\ isSpace c = true.

Definition headNotWord (toks : list Token) : Prop :=
  match toks with
  | [] => True
  | t :: _ => isWordToken t = false
  end.

(** What a state holds of the text: the ink of the lines laid out and of
    the line buffer. *)
Definition stateInk (st : FlowState) : str :=
  ink (concat (allLines st)) ++ ink (currentLine st).

Definition countNewlines (toks : list Token) : nat :=
  length (filter (fun t => match type t with newline => true | _ => false end)
                 toks).

Definition startsWithInk (l : str) : Prop :=
  match l with
  | c :: _ => isSpace c = false
  | [] => False
  end.

(** A line begins with a character that is drawn, unless it is the
    placeholder of an empty line. *)
Definition lineStartsClean (l : str) : Prop :=
  l = [NBSP] \/ startsWithInk l.

(** The lines begin clean, and so does the line buffer unless it is
    empty. *)
Definition StartInv (st : FlowState) : Prop :=
  Forall lineStartsClean (allLines st)
  /\ (currentLine st = [] \/ startsWithInk (currentLine st)).

(** A committed line is never empty and carries no trailing white space,
    unless it is the placeholder of an empty line. *)
Definition lineWellFormed (l : str) : Prop :=
  l <> [] /\ (l = [NBSP] \/ trimEnd l = l).

(** [Number(x.toFixed(2))] on exact numbers: the multiple of 1/100 nearest
    to [x], the larger one of two. *)
Definition toFixed2 (x : Q) : Q := Qfloor (x * 100 + (1 # 2)) # 100.

(** The updater of the effect that keeps [columnWidthsMm] in step with
    [columns]: missing widths are appended, surplus ones cut off. *)
Definition syncColumnWidths (availableMm : Q) (columns : Z) (prev : list Q)
  : list Q :=
  if (Z.of_nat (length prev) <? columns)%Z then
    let fallback := Qmax (availableMm / inject_Z columns) 1 in
    prev ++ repeat (toFixed2 fallback)
                   (Z.to_nat (columns - Z.of_nat (length prev)))
  else if (columns <? Z.of_nat (length prev))%Z then
    firstn (Z.to_nat columns) prev
  else prev.

(** * Properties *)

Unset Implicit Arguments.

(** ** Strings and the tokenizer *)

Lemma takeWhile_dropWhile (p : char -> bool) (s : str) :
  takeWhile p s ++ dropWhile p s = s.
Proof.
  induction s as [|c s IH]; simpl; [reflexivity|].
  destruct (p c); simpl; [now rewrite IH | reflexivity].
Qed.

Lemma takeWhile_all (p : char -> bool) (s : str) :
  forallb p (takeWhile p s) = true.
Proof.
  induction s as [|c s IH]; simpl; [reflexivity|].
  destruct (p c) eqn:E; simpl; [now rewrite E | reflexivity].
Qed.

Lemma str_eqb_eq (a b : str) : Str.eqb a b = true <-> a = b.
Proof.
  revert b; induction a as [|x a IH]; intros [|y b]; simpl;
    try (split; [discriminate | discriminate || reflexivity]);
    try (split; reflexivity).
  rewrite andb_true_iff, N.eqb_eq, IH. split.
  - intros [-> ->]; reflexivity.
  - intros H; injection H; auto.
Qed.

Lemma isEmpty_true (s : str) : isEmpty s = true <-> s = [].
Proof. destruct s; simpl; split; congruence. Qed.

Lemma isEmpty_false (s : str) : isEmpty s = false <-> s <> [].
Proof. destruct s; simpl; split; congruence. Qed.

(** A match of the regular expression is a non-empty prefix of the text. *)
Lemma regexExec_split (s chunk rest : str) :
  regexExec s = Some (chunk, rest) ->
  chunk ++ rest = s /\ chunk <> [].
Proof.
  destruct s as [|c s]; simpl; [discriminate|].
  destruct (c =? LF)%N.
  - intros H; injection H as <- <-. split; [reflexivity | discriminate].
  - destruct (isSpace c) eqn:E; simpl; rewrite ?E; simpl;
      intros H; injection H as <- <-; split;
      try discriminate; simpl; now rewrite takeWhile_dropWhile.
Qed.

Lemma regexExec_none (s : str) : regexExec s = None -> s = [].
Proof.
  destruct s as [|c s]; simpl; [reflexivity|].
  destruct (c =? LF)%N; [discriminate|]. destruct (isSpace c); discriminate.
Qed.

Lemma chunkTokens_values (chunk : str) :
  tokenValues (chunkTokens chunk) = chunk.
Proof.
  unfold chunkTokens, tokenValues.
  destruct (Str.eqb chunk [LF]); [simpl; apply app_nil_r|].
  destruct (allSpace chunk); [|simpl; apply app_nil_r].
  induction chunk as [|c chunk IH]; simpl; [reflexivity|].
  rewrite IH. destruct (c =? LF)%N eqn:E; simpl; [|reflexivity].
  apply N.eqb_eq in E. now subst.
Qed.

Lemma tokenValues_app (a b : list Token) :
  tokenValues (a ++ b) = tokenValues a ++ tokenValues b.
Proof. unfold tokenValues. now rewrite map_app, concat_app. Qed.

Lemma tokenizeLoop_total (n : nat) (s : str) :
  (length s < n)%nat ->
  exists toks, tokenizeLoop n s = Some toks /\ tokenValues toks = s.
Proof.
  revert s; induction n as [|n IH]; intros s Hn; [lia|].
  simpl. destruct (regexExec s) as [[chunk rest]|] eqn:E.
  - destruct (regexExec_split _ _ _ E) as [Hs Hc].
    destruct (IH rest) as (toks & Ht & Hv).
    + subst s. rewrite length_app in Hn.
      destruct chunk; [congruence | simpl in Hn; lia].
    + rewrite Ht. simpl. eexists; split; [reflexivity|].
      now rewrite tokenValues_app, chunkTokens_values, Hv.
  - apply regexExec_none in E. subst. exists []. split; reflexivity.
Qed.

Lemma tokenizeLoop_mono (n m : nat) (s : str) (toks : list Token) :
  tokenizeLoop n s = Some toks -> (n <= m)%nat ->
  tokenizeLoop m s = Some toks.
Proof.
  revert m s toks; induction n as [|n IH]; intros m s toks; [discriminate|].
  intros H Hm. destruct m as [|m]; [lia|]. simpl in *.
  destruct (regexExec s) as [[chunk rest]|]; [|assumption].
  destruct (tokenizeLoop n rest) as [t|] eqn:E; [|discriminate].
  rewrite (IH m rest t E) by lia. exact H.
Qed.

Lemma normalize_length_aux (n : nat) (s : str) :
  (length s <= n)%nat -> (length (normalize s) <= length s)%nat.
Proof.
  revert s; induction n as [|n IH]; intros s Hn.
  - destruct s; simpl in *; lia.
  - destruct s as [|c [|d s]]; simpl in *; try lia.
    destruct ((c =? CR) && (d =? LF))%N; simpl.
    + specialize (IH s). lia.
    + specialize (IH (d :: s)). simpl in IH. lia.
Qed.

Lemma normalize_length (s : str) :
  (length (normalize s) <= length s)%nat.
Proof. apply (normalize_length_aux (length s)). lia. Qed.

Lemma tokenizeFuel_total (n : nat) (text : str) :
  (length text < n)%nat ->
  exists toks, tokenizeFuel n text = Some toks
               /\ tokenValues toks = normalize text.
Proof.
  intros Hn. apply tokenizeLoop_total.
  pose proof (normalize_length text). lia.
Qed.

Lemma token_value_length (toks : list Token) (t : Token) :
  In t toks -> (length (value t) <= length (tokenValues toks))%nat.
Proof.
  induction toks as [|x toks IH]; simpl; [tauto|].
  unfold tokenValues in *. simpl. rewrite length_app.
  intros [->|H]; [lia | specialize (IH H); lia].
Qed.

(** C2: the values of the tokens of [tokenize], in order, make up the text
    with every CR LF replaced by LF: the tokenizer returns, and nothing is
    lost or repeated. *)
Theorem tokenize_roundtrip (text : str) :
  exists toks, tokenize text = Some toks
               /\ tokenValues toks = normalize text.
Proof. apply tokenizeFuel_total. lia. Qed.

(** ** The loops of [splitLongWord] *)

Section SplitFacts.

Variable measure : str -> Q.
Variable metrics : LayoutMetrics.
Variable columnCount : Z.

(** With enough fuel the binary search returns; its answer is either a
    length in the searched interval whose prefix fits, or the initial
    [best], and then the prefix of length [low] does not fit. *)
Lemma binarySearch_spec (n : nat) (remaining : str) (cw : Q) :
  forall low high best,
    (1 <= low)%nat -> (high + 1 - low < n)%nat ->
    exists b,
      binarySearch measure n remaining cw low high best = Some b
      /\ (((low <= b <= high)%nat
           /\ Qle_bool (measure (firstn b remaining)) (cw + tolerance) = true)
          \/ (b = best
              /\ ((low <= high)%nat ->
                  Qle_bool (measure (firstn low remaining)) (cw + tolerance)
                  = false))).
Proof.
  induction n as [|n IH]; intros low high best Hlow Hn; [lia|].
  cbn [binarySearch]. destruct (low <=? high)%nat eqn:Elh.
  - apply Nat.leb_le in Elh.
    assert (Hmid : (low <= (low + high) / 2 <= high)%nat).
    { split; [apply Nat.div_le_lower_bound | apply Nat.Div0.div_le_upper_bound];
        lia. }
    set (mid := ((low + high) / 2)%nat) in *.
    destruct (Qle_bool (measure (firstn mid remaining)) (cw + tolerance)) eqn:Ef.
    + destruct (IH (mid + 1)%nat high mid) as (b & Hb & Hcase); [lia | lia |].
      exists b. split; [exact Hb|]. left.
      destruct Hcase as [[Hr Hfit] | [-> _]]; [split; [lia | exact Hfit]|].
      split; [lia | exact Ef].
    + destruct (IH low (mid - 1)%nat best) as (b & Hb & Hcase); [lia | lia |].
      exists b. split; [exact Hb|].
      destruct Hcase as [[Hr Hfit] | [-> Hno]].
      * left. split; [lia | exact Hfit].
      * right. split; [reflexivity|]. intros _.
        destruct (Nat.le_gt_cases low (mid - 1)) as [Hle | Hgt];
          [now apply Hno|].
        replace low with mid by lia. exact Ef.
  - exists best. split; [reflexivity|]. right. split; [reflexivity|].
    apply Nat.leb_gt in Elh. lia.
Qed.

Lemma binarySearch_mono (n m : nat) (remaining : str) (cw : Q) :
  forall low high best b,
    binarySearch measure n remaining cw low high best = Some b ->
    (n <= m)%nat ->
    binarySearch measure m remaining cw low high best = Some b.
Proof.
  revert m; induction n as [|n IH]; intros m low high best b; [discriminate|].
  intros H Hm. destruct m as [|m]; [lia|]. cbn [binarySearch] in *.
  destruct (low <=? high)%nat; [|exact H].
  destruct (Qle_bool _ _); apply IH; (exact H || lia).
Qed.

(** One iteration of [splitLongWord] takes between one character and the
    whole of a non-empty [remaining]; what it takes fits the width it was
    searched for unless it is a single character that does not fit. *)
Lemma chooseBest_spec (fuel : nat) (remaining : str) (cw : Q) :
  (length remaining < fuel)%nat ->
  exists best,
    chooseBest measure fuel remaining cw = Some best
    /\ (1 <= best)%nat
    /\ (remaining <> [] -> (best <= length remaining)%nat)
    /\ (Qle_bool (measure (firstn best remaining)) (cw + tolerance) = true
        \/ (best = 1%nat
            /\ (remaining <> [] ->
                Qle_bool (measure (firstn 1 remaining)) (cw + tolerance)
                = false))).
Proof.
  intros Hf. unfold chooseBest.
  destruct (binarySearch_spec fuel remaining cw 1 (length remaining) 0)
    as (b & Hb & Hcase); [lia | lia |].
  rewrite Hb. simpl. eexists; split; [reflexivity|].
  destruct Hcase as [[Hr Hfit] | [-> Hno]].
  - destruct (Nat.eqb_spec b 0); [lia|]. repeat split; try lia. now left.
  - simpl. repeat split; try lia.
    + intros Hne. destruct remaining; [congruence | simpl; lia].
    + right. split; [reflexivity|]. intros Hne. apply Hno.
      destruct remaining; [congruence | simpl; lia].
Qed.

Lemma chooseBest_mono (f g : nat) (remaining : str) (cw : Q) (best : nat) :
  chooseBest measure f remaining cw = Some best -> (f <= g)%nat ->
  chooseBest measure g remaining cw = Some best.
Proof.
  unfold chooseBest. intros H Hfg.
  destruct (binarySearch measure f remaining cw 1 (length remaining) 0)
    as [b|] eqn:E; [|discriminate].
  now rewrite (binarySearch_mono _ _ _ _ _ _ _ _ E Hfg).
Qed.

Lemma skipn_shorter (best : nat) (remaining : str) :
  (1 <= best)%nat -> remaining <> [] ->
  (length (skipn best remaining) < length remaining)%nat.
Proof.
  intros Hb Hne. rewrite length_skipn.
  destruct remaining; [congruence | cbn [length]; lia].
Qed.

(** The outer loop returns once its fuel exceeds the length of the word:
    every iteration removes at least one character. *)
Lemma splitLoop_total (fuel n : nat) :
  forall remaining st,
    (length remaining < fuel)%nat -> (length remaining < n)%nat ->
    exists st', splitLoop measure metrics columnCount fuel n remaining st
                = Some st'.
Proof.
  induction n as [|n IH]; intros remaining st Hf Hn; [lia|].
  simpl. destruct (0 <? length remaining)%nat eqn:El; [|eauto].
  apply Nat.ltb_lt in El.
  destruct (chooseBest_spec fuel remaining (getColumnWidth metrics st) Hf)
    as (best & Hb & H1 & Hle & _).
  rewrite Hb. simpl.
  assert (Hne : remaining <> [])
    by (destruct remaining; simpl in El; [lia | discriminate]).
  destruct (best =? length remaining)%nat.
  - destruct n; [lia|]. simpl. eauto.
  - apply IH; pose proof (skipn_shorter _ _ H1 Hne); lia.
Qed.

Lemma splitLoop_mono (f g n m : nat) :
  forall remaining st st',
    splitLoop measure metrics columnCount f n remaining st = Some st' ->
    (f <= g)%nat -> (n <= m)%nat ->
    splitLoop measure metrics columnCount g m remaining st = Some st'.
Proof.
  revert m; induction n as [|n IH]; intros m remaining st st'; [discriminate|].
  intros H Hfg Hnm. destruct m as [|m]; [lia|]. simpl in *.
  destruct (0 <? length remaining)%nat; [|exact H].
  destruct (chooseBest measure f remaining (getColumnWidth metrics st))
    as [best|] eqn:E; [|discriminate].
  rewrite (chooseBest_mono _ _ _ _ _ E Hfg). simpl in *.
  destruct (best =? length remaining)%nat; apply IH; (exact H || lia).
Qed.

Lemma processToken_total (fuel : nat) (token : Token) (st : FlowState) :
  (length (value token) < fuel)%nat ->
  exists st', processToken measure metrics columnCount fuel token st = Some st'.
Proof.
  intros Hf. unfold processToken.
  destruct (type token).
  - destruct (negb (isEmpty (currentLine st))); eauto.
  - destruct (isEmpty (currentLine st)); eauto.
    destruct (Qle_bool _ _); eauto.
  - destruct (Qle_bool (measure (value token)) _); eauto.
    apply splitLoop_total; assumption.
Qed.

Lemma processToken_mono (f g : nat) (token : Token) (st st' : FlowState) :
  processToken measure metrics columnCount f token st = Some st' ->
  (f <= g)%nat ->
  processToken measure metrics columnCount g token st = Some st'.
Proof.
  unfold processToken. intros H Hfg.
  destruct (type token); try exact H.
  destruct (Qle_bool (measure (value token)) _); [exact H|].
  unfold splitLongWord in *. eapply splitLoop_mono; eauto.
Qed.

Lemma processTokens_total (fuel : nat) (tokens : list Token) :
  forall st,
    (forall t, In t tokens -> (length (value t) < fuel)%nat) ->
    exists st', processTokens measure metrics columnCount fuel tokens st
                = Some st'.
Proof.
  induction tokens as [|t tokens IH]; intros st Hall; simpl; [eauto|].
  destruct (processToken_total fuel t st) as [st1 H1];
    [apply Hall; now left|].
  rewrite H1. simpl. apply IH. intros x Hx. apply Hall. now right.
Qed.

Lemma processTokens_mono (f g : nat) (tokens : list Token) :
  forall st st',
    processTokens measure metrics columnCount f tokens st = Some st' ->
    (f <= g)%nat ->
    processTokens measure metrics columnCount g tokens st = Some st'.
Proof.
  induction tokens as [|t tokens IH]; intros st st' H Hfg; simpl in *;
    [exact H|].
  destruct (processToken measure metrics columnCount f t st) as [st1|] eqn:E;
    [|discriminate].
  rewrite (processToken_mono _ _ _ _ _ E Hfg). simpl in *. now apply IH.
Qed.

End SplitFacts.

(** [layoutText] returns for every backend, configuration and metrics, and
    more fuel than the length of the text does not change what it returns. *)
Lemma layoutTextFuel_total (fuel : nat) (backend : Backend)
      (config : LayoutConfig.t) (metrics : LayoutMetrics) :
  (length (LayoutConfig.text config) < fuel)%nat ->
  exists pgs, layoutTextFuel fuel backend config metrics = Some pgs.
Proof.
  intros Hf. unfold layoutTextFuel.
  destruct backend as [| |measureText]; eauto;
    destruct (length (columnWidthsPx metrics) =? 0)%nat; eauto.
  destruct (tokenizeFuel_total fuel _ Hf) as (toks & Ht & Hv).
  rewrite Ht. simpl. unfold flow.
  destruct (processTokens_total
              (measureText (fontSizePx metrics) (LayoutConfig.fontFamily config))
              metrics (columnCountOf config) fuel toks initialState)
    as [st Hst].
  - intros t Hin. pose proof (token_value_length toks t Hin) as Hl.
    rewrite Hv in Hl. pose proof (normalize_length (LayoutConfig.text config)).
    lia.
  - rewrite Hst. simpl. eauto.
Qed.

Lemma layoutTextFuel_mono (f g : nat) (backend : Backend)
      (config : LayoutConfig.t) (metrics : LayoutMetrics)
      (pgs : list LayoutPage) :
  layoutTextFuel f backend config metrics = Some pgs -> (f <= g)%nat ->
  layoutTextFuel g backend config metrics = Some pgs.
Proof.
  unfold layoutTextFuel. intros H Hfg.
  destruct backend as [| |measureText]; try exact H.
  destruct (length (columnWidthsPx metrics) =? 0)%nat; [exact H|].
  unfold tokenizeFuel in *.
  destruct (tokenizeLoop f _) as [toks|] eqn:Et; [|discriminate].
  rewrite (tokenizeLoop_mono _ _ _ _ Et Hfg). simpl in *.
  unfold flow in *.
  destruct (processTokens _ _ _ f toks initialState) as [st|] eqn:Es;
    [|discriminate].
  now rewrite (processTokens_mono _ _ _ _ _ _ _ _ Es Hfg).
Qed.

Lemma layoutText_total (backend : Backend) (config : LayoutConfig.t)
      (metrics : LayoutMetrics) :
  exists pgs, layoutText backend config metrics = Some pgs.
Proof. apply layoutTextFuel_total. lia. Qed.

(** C9: [layoutText] returns for every backend, text and metrics (zero
    widths included) as soon as each loop may run once more than the text
    has characters, and more fuel gives the same pages; one iteration of
    [splitLongWord] takes at least one and at most all characters of a
    non-empty rest, a single one when no prefix fits, so that the rest
    gets strictly shorter. *)
Theorem layoutText_terminates (backend : Backend) (config : LayoutConfig.t)
        (metrics : LayoutMetrics) (fuel : nat) :
  (length (LayoutConfig.text config) < fuel)%nat ->
  (exists pgs, layoutTextFuel fuel backend config metrics = Some pgs
               /\ layoutText backend config metrics = Some pgs)
  /\ (forall measure remaining columnWidth,
        remaining <> [] ->
        (length remaining <= length (LayoutConfig.text config))%nat ->
        exists best,
          chooseBest measure fuel remaining columnWidth = Some best
          /\ (1 <= best <= length remaining)%nat
          /\ (length (skipn best remaining) < length remaining)%nat
          /\ (Qle_bool (measure (firstn best remaining))
                       (columnWidth + tolerance) = true
              \/ best = 1%nat)).
Proof.
  intros Hf. split.
  - destruct (layoutText_total backend config metrics) as [pgs Hp].
    exists pgs. split; [|exact Hp].
    apply (layoutTextFuel_mono _ _ _ _ _ _ Hp). lia.
  - intros measure remaining cw Hne Hlen.
    destruct (chooseBest_spec measure fuel remaining cw)
      as (best & Hb & H1 & Hle & Hfit); [lia|].
    exists best. split; [exact Hb|]. specialize (Hle Hne).
    split; [lia|]. split; [now apply skipn_shorter|].
    destruct Hfit as [Hfit | [-> _]]; [now left | now right].
Qed.

Lemma layoutText_terminates_witness :
  (length (LayoutConfig.text (sampleConfig (letters 97%N 5) 2)) < 6)%nat
  /\ (exists pgs,
         layoutTextFuel 6 (Canvas tenPerChar)
           (sampleConfig (letters 97%N 5) 2) (sampleMetrics [0; 0] 16 16)
         = Some pgs
         /\ layoutText (Canvas tenPerChar)
              (sampleConfig (letters 97%N 5) 2) (sampleMetrics [0; 0] 16 16)
            = Some pgs).
Proof.
  assert (H : (length (LayoutConfig.text (sampleConfig (letters 97%N 5) 2)) < 6)%nat)
    by (simpl; lia).
  split; [exact H|].
  exact (proj1 (layoutText_terminates (Canvas tenPerChar)
                  (sampleConfig (letters 97%N 5) 2)
                  (sampleMetrics [0; 0] 16 16) 6 H)).
Defined.

(** ** Invariants of the flow *)

(** A property of the state that [ensureColumnSpaceForNextLine] and
    [commitLine] keep, and that does not depend on the line buffer, is kept
    by the whole token loop. *)
Section Preservation.

Variable measure : str -> Q.
Variable metrics : LayoutMetrics.
Variable columnCount : Z.
Variable fuel : nat.
Variable P : FlowState -> Prop.

Hypothesis P_ensure :
  forall st, P st -> P (ensureColumnSpaceForNextLine metrics columnCount st).
Hypothesis P_commit :
  forall raw st, P st -> P (commitLine metrics columnCount raw st).
Hypothesis P_buffer :
  forall st line width,
    P st ->
    P (mkState (pages st) (currentPage st) (currentColumnLines st)
               (cursorY st) line width).

Lemma splitLoop_preserves (n : nat) :
  forall remaining st st',
    splitLoop measure metrics columnCount fuel n remaining st = Some st' ->
    P st -> P st'.
Proof.
  induction n as [|n IH]; intros remaining st st'; [discriminate|].
  simpl. destruct (0 <? length remaining)%nat.
  - destruct (chooseBest measure fuel remaining (getColumnWidth metrics st))
      as [best|]; [|discriminate].
    simpl. destruct (best =? length remaining)%nat; intros H HP;
      apply (IH _ _ _ H); auto.
  - intros H HP. injection H as <-. exact HP.
Qed.

Lemma processToken_preserves (token : Token) (st st' : FlowState) :
  processToken measure metrics columnCount fuel token st = Some st' ->
  P st -> P st'.
Proof.
  unfold processToken. intros H HP. destruct (type token).
  - destruct (negb (isEmpty (currentLine st))); injection H as <-; auto.
  - destruct (isEmpty (currentLine st)); [injection H as <-; auto|].
    destruct (Qle_bool _ _); injection H as <-; auto.
  - set (st1 := if Qlt_bool 0 (currentLineWidth st) && _ then _ else st) in H.
    assert (H1 : P st1) by (subst st1; destruct (_ && _); auto).
    destruct (Qle_bool (measure (value token)) _).
    + injection H as <-. apply P_buffer.
      destruct (isEmpty (currentLine st1)); auto.
    + apply (splitLoop_preserves _ _ _ _ H).
      destruct (negb (isEmpty (currentLine st1))); auto.
Qed.

Lemma processTokens_preserves (tokens : list Token) :
  forall st st',
    processTokens measure metrics columnCount fuel tokens st = Some st' ->
    P st -> P st'.
Proof.
  induction tokens as [|t tokens IH]; intros st st' H HP; simpl in H.
  - injection H as <-. exact HP.
  - destruct (processToken measure metrics columnCount fuel t st)
      as [st1|] eqn:E; [|discriminate].
    simpl in H. apply (IH _ _ H). apply (processToken_preserves _ _ _ E HP).
Qed.

End Preservation.

(** ** Page accounting *)

Section Counting.

Variable measure : str -> Q.
Variable metrics : LayoutMetrics.
Variable columnCount : Z.
Variable fuel : nat.

Hypothesis columnCount_pos : (1 <= columnCount)%Z.

Lemma finishColumn_count (st : FlowState) :
  CountInv columnCount st -> CountInv columnCount (finishColumn columnCount st).
Proof.
  intros [Hfull Hopen]. unfold finishColumn.
  destruct (Z.of_nat (length (columns (currentPage st) ++ _)) =? columnCount)%Z
    eqn:E; constructor; simpl.
  - apply Forall_app. split; [exact Hfull|]. constructor; [|constructor].
    unfold hasColumns. simpl. apply Z.eqb_eq in E. rewrite <- E.
    now rewrite Nat2Z.id.
  - lia.
  - exact Hfull.
  - apply Z.eqb_neq in E. rewrite length_app in *. simpl in *. lia.
Qed.

Lemma ensure_count (st : FlowState) :
  CountInv columnCount st ->
  CountInv columnCount (ensureColumnSpaceForNextLine metrics columnCount st).
Proof.
  intros H. unfold ensureColumnSpaceForNextLine.
  destruct (Qle_bool _ _); [exact H | now apply finishColumn_count].
Qed.

Lemma buffer_count (st : FlowState) (line : str) (width : Q) :
  CountInv columnCount st ->
  CountInv columnCount
    (mkState (pages st) (currentPage st) (currentColumnLines st)
             (cursorY st) line width).
Proof. intros [Hfull Hopen]. constructor; assumption. Qed.

Lemma commitLine_count (raw : str) (st : FlowState) :
  CountInv columnCount st ->
  CountInv columnCount (commitLine metrics columnCount raw st).
Proof.
  intros H. apply ensure_count in H. destruct H as [Hfull Hopen].
  unfold commitLine. constructor; assumption.
Qed.

Lemma initialState_count : CountInv columnCount initialState.
Proof. constructor; simpl; [constructor | lia]. Qed.

Lemma processTokens_count (tokens : list Token) (st : FlowState) :
  processTokens measure metrics columnCount fuel tokens initialState = Some st ->
  CountInv columnCount st.
Proof.
  intros H.
  apply (processTokens_preserves measure metrics columnCount fuel
           (CountInv columnCount) ensure_count commitLine_count buffer_count
           tokens initialState st H initialState_count).
Qed.

Lemma padLoop_length (missing : nat) :
  forall cols, length (padLoop missing cols) = (length cols + missing)%nat.
Proof.
  induction missing as [|m IH]; intros cols; simpl; [lia|].
  rewrite IH, length_app. simpl. lia.
Qed.

Lemma padColumns_length (cols : list Column) :
  (length cols <= Z.to_nat columnCount)%nat ->
  length (padColumns columnCount cols) = Z.to_nat columnCount.
Proof. intros H. unfold padColumns. rewrite padLoop_length. lia. Qed.

Lemma createEmptyPage_columns (n : Z) :
  hasColumns (Z.to_nat n) (createEmptyPage n).
Proof. unfold hasColumns, createEmptyPage. simpl. apply repeat_length. Qed.

Lemma finishLayout_count (st : FlowState) :
  CountInv columnCount st ->
  Forall (hasColumns (Z.to_nat columnCount)) (finishLayout metrics columnCount st).
Proof.
  intros H. unfold finishLayout.
  set (st1 := if negb (isEmpty (currentLine st)) then _ else st).
  assert (H1 : CountInv columnCount st1)
    by (subst st1; destruct (negb _); [now apply commitLine_count | exact H]).
  destruct H1 as [Hfull Hopen].
  match goal with
  | |- context [if (length ?l =? 0)%nat then _ else _] =>
      assert (Hl : Forall (hasColumns (Z.to_nat columnCount)) l)
  end.
  { destruct (_ || _); [|exact Hfull].
    apply Forall_app. split; [exact Hfull|]. constructor; [|constructor].
    unfold hasColumns. simpl. apply padColumns_length.
    rewrite length_app. simpl. lia. }
  destruct (length _ =? 0)%nat; [|exact Hl].
  constructor; [apply createEmptyPage_columns | constructor].
Qed.

End Counting.

Lemma columnCountOf_pos (config : LayoutConfig.t) :
  (1 <= columnCountOf config)%Z.
Proof. unfold columnCountOf. lia. Qed.

(** C4: every page [layoutText] returns has exactly [columnCount] columns
    (on the server, where there is no [window], for a configuration with
    at least one column); while the tokens flow, the closed pages have
    [columnCount] columns and the open page has fewer. *)
Theorem layoutText_column_count (backend : Backend) (config : LayoutConfig.t)
        (metrics : LayoutMetrics) :
  (backend = NoWindow -> (1 <= LayoutConfig.columns config)%Z) ->
  (exists pgs,
      layoutText backend config metrics = Some pgs
      /\ Forall (hasColumns (Z.to_nat (columnCountOf config))) pgs)
  /\ (forall measure fuel tokens st,
        processTokens measure metrics (columnCountOf config) fuel tokens
                      initialState = Some st ->
        CountInv (columnCountOf config) st).
Proof.
  intros Hserver. split.
  - destruct (layoutText_total backend config metrics) as [pgs Hp].
    exists pgs. split; [exact Hp|].
    unfold layoutText, layoutTextFuel in Hp.
    destruct backend as [| |measureText].
    + injection Hp as <-. constructor; [|constructor].
      replace (columnCountOf config) with (LayoutConfig.columns config)
        by (unfold columnCountOf; specialize (Hserver eq_refl); lia).
      apply createEmptyPage_columns.
    + destruct (length (columnWidthsPx metrics) =? 0)%nat;
        injection Hp as <-; (constructor; [apply createEmptyPage_columns|constructor]).
    + destruct (length (columnWidthsPx metrics) =? 0)%nat.
      * injection Hp as <-. constructor; [apply createEmptyPage_columns|constructor].
      * destruct (tokenizeFuel _ _) as [toks|]; [|discriminate].
        simpl in Hp. unfold flow in Hp.
        destruct (processTokens _ _ _ _ toks initialState) as [st|] eqn:Es;
          [|discriminate].
        injection Hp as <-.
        apply finishLayout_count; [apply columnCountOf_pos|].
        eapply processTokens_count; [apply columnCountOf_pos | exact Es].
  - intros measure fuel tokens st H.
    eapply processTokens_count; [apply columnCountOf_pos | exact H].
Qed.

Lemma layoutText_column_count_witness :
  (Canvas tenPerChar = NoWindow ->
   (1 <= LayoutConfig.columns (sampleConfig (letters 97%N 25) 2))%Z)
  /\ exists pgs,
       layoutText (Canvas tenPerChar) (sampleConfig (letters 97%N 25) 2)
                  (sampleMetrics [100; 10] 16 16) = Some pgs
       /\ Forall (hasColumns 2) pgs.
Proof.
  assert (H : Canvas tenPerChar = NoWindow ->
              (1 <= LayoutConfig.columns (sampleConfig (letters 97%N 25) 2))%Z)
    by (intros _; simpl; lia).
  split; [exact H|].
  exact (proj1 (layoutText_column_count (Canvas tenPerChar)
                  (sampleConfig (letters 97%N 25) 2)
                  (sampleMetrics [100; 10] 16 16) H)).
Defined.

(** ** Counts as numbers *)


(** ** At least one page *)

Lemma finishLayout_nonempty (metrics : LayoutMetrics) (columnCount : Z)
      (st : FlowState) :
  (1 <= length (finishLayout metrics columnCount st))%nat.
Proof.
  unfold finishLayout.
  match goal with
  | |- context [if (length ?l =? 0)%nat then _ else _] =>
      destruct (Nat.eqb_spec (length l) 0)
  end; simpl; lia.
Qed.

(** C8: [layoutText] returns at least one page for every configuration;
    for the empty text it is the one page of empty columns made up after a
    flow that produced none. *)
Theorem layoutText_nonempty (backend : Backend) (config : LayoutConfig.t)
        (metrics : LayoutMetrics) :
  (exists pgs,
      layoutText backend config metrics = Some pgs
      /\ (1 <= length pgs)%nat)
  /\ (forall measureText,
        layoutText (Canvas measureText)
          (LayoutConfig.mk [] (LayoutConfig.columns config)
             (LayoutConfig.fontFamily config) (LayoutConfig.fontSize config)
             (LayoutConfig.lineSpacing config))
          metrics
        = Some [createEmptyPage (columnCountOf config)])
  /\ (forall st,
        pages st = [] -> currentLine st = [] ->
        currentColumnLines st = [] -> columns (currentPage st) = [] ->
        finishLayout metrics (columnCountOf config) st
        = [createEmptyPage (columnCountOf config)]).
Proof.
  split; [|split].
  - destruct (layoutText_total backend config metrics) as [pgs Hp].
    exists pgs. split; [exact Hp|].
    unfold layoutText, layoutTextFuel in Hp.
    destruct backend as [| |measureText].
    + injection Hp as <-. simpl. lia.
    + destruct (length (columnWidthsPx metrics) =? 0)%nat;
        injection Hp as <-; simpl; lia.
    + destruct (length (columnWidthsPx metrics) =? 0)%nat;
        [injection Hp as <-; simpl; lia|].
      destruct (tokenizeFuel _ _) as [toks|]; [|discriminate].
      simpl in Hp. unfold flow in Hp.
      destruct (processTokens _ _ _ _ toks initialState) as [st|];
        [|discriminate].
      injection Hp as <-. apply finishLayout_nonempty.
  - intros measureText. unfold layoutText, layoutTextFuel. simpl.
    destruct (length (columnWidthsPx metrics) =? 0)%nat; reflexivity.
  - intros st Hp Hl Hc Hcols. unfold finishLayout.
    rewrite Hl. simpl. rewrite Hc, Hcols, Hp. reflexivity.
Qed.

Lemma layoutText_nonempty_witness :
  finishLayout (sampleMetrics [100] 16 16)
               (columnCountOf (sampleConfig [] 3)) initialState
  = [createEmptyPage (columnCountOf (sampleConfig [] 3))].
Proof.
  exact (proj2 (proj2 (layoutText_nonempty NoContext (sampleConfig [] 3)
                         (sampleMetrics [100] 16 16)))
               initialState eq_refl eq_refl eq_refl eq_refl).
Defined.

(** ** Without a measurement backend *)

Lemma createEmptyPage_empty (n : Z) :
  Forall columnEmpty (columns (createEmptyPage n)).
Proof.
  unfold createEmptyPage. simpl. apply Forall_forall.
  intros c Hc. apply repeat_spec in Hc. now subst.
Qed.

(** C10: without a [window], or without a 2D context, [layoutText] returns
    one page of empty columns and runs none of its loops (it returns with
    no fuel at all): [config.columns] columns without a [window],
    [max(config.columns, 1)] columns without a context. *)
Theorem layoutText_no_backend (config : LayoutConfig.t)
        (metrics : LayoutMetrics) (fuel : nat) :
  layoutTextFuel fuel NoWindow config metrics
  = Some [createEmptyPage (LayoutConfig.columns config)]
  /\ layoutTextFuel fuel NoContext config metrics
     = Some [createEmptyPage (Z.max (LayoutConfig.columns config) 1)]
  /\ layoutText NoWindow config metrics
     = Some [createEmptyPage (LayoutConfig.columns config)]
  /\ layoutText NoContext config metrics
     = Some [createEmptyPage (Z.max (LayoutConfig.columns config) 1)]
  /\ (forall n, length (columns (createEmptyPage n)) = Z.to_nat n
                /\ Forall columnEmpty (columns (createEmptyPage n))).
Proof.
  assert (Hctx : forall f, layoutTextFuel f NoContext config metrics
                           = Some [createEmptyPage
                                     (Z.max (LayoutConfig.columns config) 1)])
    by (intros f; unfold layoutTextFuel;
        destruct (length (columnWidthsPx metrics) =? 0)%nat; reflexivity).
  repeat split; try reflexivity; try apply Hctx.
  - apply createEmptyPage_columns.
  - apply createEmptyPage_empty.
Qed.

(** ** Metrics resolver *)

Lemma fold_left_Qplus (l : list Q) (a : Q) :
  fold_left Qplus l a == a + sumQ l.
Proof.
  unfold sumQ. revert a. induction l as [|x l IH]; intros a; simpl.
  - ring.
  - rewrite (IH (a + x)), (IH (0 + x)). ring.
Qed.

Lemma sumQ_cons (x : Q) (l : list Q) : sumQ (x :: l) == x + sumQ l.
Proof. unfold sumQ at 1. simpl. rewrite fold_left_Qplus. ring. Qed.

Lemma mmToPx_linear (v k : Q) : mmToPx (v * k) == v * mmToPx k.
Proof. unfold mmToPx. field. Qed.

Lemma mmToPx_mono (a b : Q) : a <= b -> mmToPx a <= mmToPx b.
Proof.
  intros H. unfold mmToPx, Qdiv.
  repeat apply Qmult_le_compat_r; try exact H;
    apply Qle_bool_iff; reflexivity.
Qed.

#[local] Instance mmToPx_compat : Proper (Qeq ==> Qeq) mmToPx.
Proof. intros a b H. unfold mmToPx. now rewrite H. Qed.

Lemma sumQ_scaled (k : Q) (l : list Q) :
  sumQ (map (fun value => mmToPx (value * k)) l) == sumQ l * mmToPx k.
Proof.
  induction l as [|x l IH]; simpl.
  - unfold sumQ. simpl. ring.
  - rewrite !sumQ_cons, IH, mmToPx_linear. ring.
Qed.

Lemma computeMetrics_widths (columns : Z) (mode : ColumnMode)
      (columnWidthsMm : list Q) (gapMm : Q) (margins : Margins)
      (fontSize lineSpacing : Q) :
  columnWidthsPx (computeMetrics columns mode columnWidthsMm gapMm margins
                                 fontSize lineSpacing)
  = fst (resolveWidths columns mode columnWidthsMm gapMm margins)
  /\ customScale (computeMetrics columns mode columnWidthsMm gapMm margins
                                 fontSize lineSpacing)
     = snd (resolveWidths columns mode columnWidthsMm gapMm margins).
Proof.
  unfold computeMetrics.
  destruct (resolveWidths columns mode columnWidthsMm gapMm margins).
  split; reflexivity.
Qed.

Lemma resolveWidths_custom_scaled (columns : Z) (columnWidthsMm : list Q)
      (gapMm : Q) (margins : Margins) :
  0 < sumQ (requestedWidths (Z.max columns 1) columnWidthsMm) ->
  resolveWidths columns custom columnWidthsMm gapMm margins
  = (map (fun value =>
            mmToPx (value * (availableWidthMm columns gapMm margins
                             / sumQ (requestedWidths (Z.max columns 1)
                                                     columnWidthsMm))))
         (requestedWidths (Z.max columns 1) columnWidthsMm),
     availableWidthMm columns gapMm margins
     / sumQ (requestedWidths (Z.max columns 1) columnWidthsMm)).
Proof.
  intros Hpos. unfold resolveWidths.
  destruct (Qle_bool (sumQ _) 0) eqn:E; [|reflexivity].
  apply Qle_bool_iff in E. exfalso. exact (Qlt_not_le _ _ Hpos E).
Qed.

Lemma resolveWidths_custom_fallback (columns : Z) (columnWidthsMm : list Q)
      (gapMm : Q) (margins : Margins) :
  sumQ (requestedWidths (Z.max columns 1) columnWidthsMm) <= 0 ->
  resolveWidths columns custom columnWidthsMm gapMm margins
  = (repeat (availableWidthPx columns gapMm margins
             / inject_Z (Z.max columns 1))
            (Z.to_nat (Z.max columns 1)),
     1).
Proof.
  intros Hle. unfold resolveWidths.
  destruct (Qle_bool (sumQ _) 0) eqn:E; [reflexivity|].
  apply Qle_bool_iff in Hle. congruence.
Qed.

Lemma Forall2_map_left {A B : Type} (R : B -> A -> Prop) (f : A -> B)
      (l : list A) :
  (forall a, In a l -> R (f a) a) -> Forall2 R (map f l) l.
Proof.
  induction l as [|a l IH]; intros H; simpl; constructor.
  - apply H. now left.
  - apply IH. intros x Hx. apply H. now right.
Qed.

(** The available width of the custom branch is the one of the equal
    branch ([availableWidthPx]) as long as neither is clamped. *)
Lemma availableWidth_unclamped (columns : Z) (gapMm : Q) (margins : Margins) :
  1 <= mmToPx PAGE_WIDTH_MM - mmToPx (left margins) - mmToPx (right margins) ->
  1 <= PAGE_WIDTH_MM - left margins - right margins - gapMm * gapCount columns ->
  mmToPx (availableWidthMm columns gapMm margins)
  == availableWidthPx columns gapMm margins.
Proof.
  intros Hc Ha. unfold availableWidthMm, availableWidthPx, contentWidthPx.
  rewrite (Q.max_l _ 1 Ha), (Q.max_l _ 1 Hc).
  assert (Heq : mmToPx (PAGE_WIDTH_MM - left margins - right margins
                        - gapMm * gapCount columns)
                == mmToPx PAGE_WIDTH_MM - mmToPx (left margins)
                   - mmToPx (right margins) - mmToPx gapMm * gapCount columns)
    by (unfold mmToPx; field).
  rewrite <- Heq. rewrite Q.max_l; [reflexivity|].
  apply Qle_trans with (mmToPx 1); [apply Qle_bool_iff; reflexivity|].
  now apply mmToPx_mono.
Qed.

Lemma sumQ_app (a b : list Q) : sumQ (a ++ b) == sumQ a + sumQ b.
Proof.
  induction a as [|x a IH]; simpl.
  - unfold sumQ at 2. simpl. ring.
  - rewrite !sumQ_cons, IH. ring.
Qed.

Lemma sumQ_zeros (n k : nat) :
  sumQ (map (fun value => Qmax value 0) (firstn n (repeat 0 k))) == 0.
Proof.
  revert n; induction k as [|k IH]; intros [|n]; simpl;
    try (unfold sumQ; simpl; reflexivity).
  rewrite sumQ_cons, IH. vm_compute. reflexivity.
Qed.

Lemma requestedWidths_length (columnCount : Z) (columnWidthsMm : list Q) :
  length (requestedWidths columnCount columnWidthsMm)
  = Nat.min (Z.to_nat columnCount) (length columnWidthsMm).
Proof. unfold requestedWidths. now rewrite length_map, length_firstn. Qed.

(** C6 as stated fails for a list of widths shorter than the column
    count: three columns are asked for, two widths are supplied, two
    widths are resolved. *)
Lemma computeMetrics_short_list_counterexample :
  length (columnWidthsPx
            (computeMetrics 3 custom [10; 20] 2 (mkMargins 10 10 10 10) 12 1))
  = 2%nat
  /\ length (columnWidthsPx
               (computeMetrics 3 custom [10; 20] 2 (mkMargins 10 10 10 10) 12 1))
     <> Z.to_nat (Z.max 3 1).
Proof. split; [vm_compute; reflexivity | vm_compute; discriminate]. Qed.

(** C6, as the code has it: in custom mode the requested widths are the
    first [columnCount] supplied ones, negative ones raised to 0; entries
    that are missing add nothing to their sum, as if they were 0, but get
    no resolved width, so a positive sum resolves as many widths as were
    requested ([columnCount] when the list is long enough); a sum of 0 or
    less resolves [columnCount] equal widths [availableWidthPx /
    columnCount] and reports the scale 1. *)
Theorem computeMetrics_custom_widths (columns : Z) (columnWidthsMm : list Q)
        (gapMm : Q) (margins : Margins) (fontSize lineSpacing : Q) :
  let columnCount := Z.max columns 1 in
  let requested := requestedWidths columnCount columnWidthsMm in
  let m := computeMetrics columns custom columnWidthsMm gapMm margins
                          fontSize lineSpacing in
  length requested = Nat.min (Z.to_nat columnCount) (length columnWidthsMm)
  /\ Forall (fun value => 0 <= value) requested
  /\ (forall k,
        sumQ (requestedWidths columnCount (columnWidthsMm ++ repeat 0 k))
        == sumQ requested)
  /\ (sumQ requested <= 0 ->
      columnWidthsPx m
      = repeat (availableWidthPx columns gapMm margins / inject_Z columnCount)
               (Z.to_nat columnCount)
      /\ length (columnWidthsPx m) = Z.to_nat columnCount
      /\ customScale m = 1)
  /\ (0 < sumQ requested ->
      length (columnWidthsPx m)
      = Nat.min (Z.to_nat columnCount) (length columnWidthsMm))
  /\ ((Z.to_nat columnCount <= length columnWidthsMm)%nat ->
      length (columnWidthsPx m) = Z.to_nat columnCount).
Proof.
  intros columnCount requested m.
  destruct (computeMetrics_widths columns custom columnWidthsMm gapMm margins
              fontSize lineSpacing) as [Hw Hs].
  fold m in Hw, Hs.
  assert (Hlen : length requested
                 = Nat.min (Z.to_nat columnCount) (length columnWidthsMm))
    by apply requestedWidths_length.
  assert (Hfall : sumQ requested <= 0 ->
                  columnWidthsPx m
                  = repeat (availableWidthPx columns gapMm margins
                            / inject_Z columnCount) (Z.to_nat columnCount)
                  /\ length (columnWidthsPx m) = Z.to_nat columnCount
                  /\ customScale m = 1).
  { intros Hle.
    rewrite (resolveWidths_custom_fallback _ _ _ _ Hle) in Hw, Hs.
    simpl in Hw, Hs. rewrite Hw, Hs, repeat_length. repeat split. }
  assert (Hpos : 0 < sumQ requested ->
                 length (columnWidthsPx m)
                 = Nat.min (Z.to_nat columnCount) (length columnWidthsMm)).
  { intros Hlt.
    rewrite (resolveWidths_custom_scaled _ _ _ _ Hlt) in Hw.
    simpl in Hw. rewrite Hw, length_map. exact Hlen. }
  split; [exact Hlen|]. split; [|split; [|split; [exact Hfall|split; [exact Hpos|]]]].
  - unfold requested, requestedWidths. apply Forall_forall.
    intros value Hin. apply in_map_iff in Hin.
    destruct Hin as (v & <- & _). apply Q.le_max_r.
  - intros k. unfold requested, requestedWidths.
    rewrite firstn_app, map_app, sumQ_app, sumQ_zeros. ring.
  - intros Hlong.
    destruct (Qlt_le_dec 0 (sumQ requested)) as [Hlt | Hle].
    + rewrite (Hpos Hlt). lia.
    + apply (Hfall Hle).
Qed.

Lemma computeMetrics_custom_widths_witness :
  sumQ (requestedWidths (Z.max 3 1) [-5; 0]) <= 0
  /\ columnWidthsPx
       (computeMetrics 3 custom [-5; 0] 2 (mkMargins 10 10 10 10) 12 1)
     = repeat (availableWidthPx 3 2 (mkMargins 10 10 10 10)
               / inject_Z (Z.max 3 1)) (Z.to_nat (Z.max 3 1)).
Proof.
  assert (H : sumQ (requestedWidths (Z.max 3 1) [-5; 0]) <= 0)
    by (apply Qle_bool_iff; vm_compute; reflexivity).
  split; [exact H|].
  exact (proj1 (proj1 (proj2 (proj2 (proj2
           (computeMetrics_custom_widths 3 [-5; 0] 2
              (mkMargins 10 10 10 10) 12 1)))) H)).
Defined.

(** ** Splitting a long word *)

Lemma trimEnd_word (s : str) :
  forallb (fun c => negb (isSpace c)) s = true -> trimEnd s = s.
Proof.
  induction s as [|c s IH]; simpl; [reflexivity|].
  rewrite andb_true_iff. intros [Hc Hs]. rewrite (IH Hs).
  destruct s; [|reflexivity].
  destruct (isSpace c); [discriminate | reflexivity].
Qed.

Lemma forallb_firstn {A : Type} (p : A -> bool) (n : nat) (l : list A) :
  forallb p l = true -> forallb p (firstn n l) = true.
Proof.
  revert n; induction l as [|x l IH]; intros [|n]; simpl; try reflexivity.
  rewrite !andb_true_iff. intros [Hx Hl]. split; [exact Hx | now apply IH].
Qed.

Lemma forallb_skipn {A : Type} (p : A -> bool) (n : nat) (l : list A) :
  forallb p l = true -> forallb p (skipn n l) = true.
Proof.
  revert n; induction l as [|x l IH]; intros [|n]; simpl; try reflexivity.
  - intros H; exact H.
  - rewrite andb_true_iff. intros [_ Hl]. now apply IH.
Qed.

(** The word tokens of the tokenizer are non-empty and free of white
    space. *)
Lemma chunkTokens_word (s chunk rest : str) (t : Token) :
  regexExec s = Some (chunk, rest) ->
  In t (chunkTokens chunk) -> type t = word -> isWord (value t) = true.
Proof.
  destruct s as [|c s]; simpl; [discriminate|].
  destruct (c =? LF)%N eqn:Ec.
  - intros H; injection H as <- <-. apply N.eqb_eq in Ec. subst c.
    simpl. intros [<-|[]]. discriminate.
  - destruct (isSpace c) eqn:Es; simpl; rewrite ?Es; simpl;
      intros H; injection H as <- <-; unfold chunkTokens.
    + destruct (Str.eqb _ _); [simpl; intros [<-|[]]; discriminate|].
      assert (Ha : allSpace (c :: takeWhile isSpace s) = true)
        by (unfold allSpace; simpl; now rewrite Es, takeWhile_all).
      rewrite Ha. intros Hin. apply in_map_iff in Hin.
      destruct Hin as (ch & <- & _). destruct (ch =? LF)%N; discriminate.
    + destruct (Str.eqb _ _); [simpl; intros [<-|[]]; discriminate|].
      assert (Ha : allSpace (c :: takeWhile (fun x => negb (isSpace x)) s)
                   = false)
        by (unfold allSpace; simpl; now rewrite Es).
      rewrite Ha. simpl. intros [<-|[]] _. unfold isWord. simpl.
      now rewrite Es, takeWhile_all.
Qed.

Lemma tokenizeLoop_words (n : nat) :
  forall s toks t,
    tokenizeLoop n s = Some toks -> In t toks -> type t = word ->
    isWord (value t) = true.
Proof.
  induction n as [|n IH]; intros s toks t; [discriminate|]. simpl.
  destruct (regexExec s) as [[chunk rest]|] eqn:E.
  - destruct (tokenizeLoop n rest) as [toks'|] eqn:Et; [|discriminate].
    simpl. intros H; injection H as <-. rewrite in_app_iff.
    intros [Hin | Hin]; [now apply (chunkTokens_word _ _ _ _ E) | now apply (IH _ _ _ Et)].
  - intros H; injection H as <-. intros [].
Qed.

Lemma tokenize_words (text : str) (toks : list Token) (t : Token) :
  tokenize text = Some toks -> In t toks -> type t = word ->
  isWord (value t) = true.
Proof. unfold tokenize, tokenizeFuel. apply tokenizeLoop_words. Qed.

Lemma last_in {A : Type} (l : list A) (d : A) : l <> [] -> In (last l d) l.
Proof.
  induction l as [|x l IH]; [congruence|]. intros _.
  destruct l as [|y l]; [now left|].
  right. apply IH. discriminate.
Qed.

Section SplitSegments.

Variable measure : str -> Q.
Variable metrics : LayoutMetrics.
Variable columnCount : Z.
Variable fuel : nat.

Lemma allLines_finishColumn (st : FlowState) :
  allLines (finishColumn columnCount st) = allLines st.
Proof.
  unfold finishColumn, allLines, pageLines.
  destruct (_ =? columnCount)%Z; simpl;
    rewrite ?map_app, ?concat_app; simpl;
    rewrite ?map_app, ?concat_app; simpl;
    rewrite ?app_nil_r, <- ?app_assoc; reflexivity.
Qed.

Lemma allLines_ensure (st : FlowState) :
  allLines (ensureColumnSpaceForNextLine metrics columnCount st) = allLines st.
Proof.
  unfold ensureColumnSpaceForNextLine.
  destruct (Qle_bool _ _); [reflexivity | apply allLines_finishColumn].
Qed.

Lemma allLines_commitLine (raw : str) (st : FlowState) :
  allLines (commitLine metrics columnCount raw st)
  = allLines st ++ [if isEmpty (trimEnd raw) then [NBSP] else trimEnd raw].
Proof.
  rewrite <- (allLines_ensure st). unfold commitLine, allLines. simpl.
  now rewrite <- !app_assoc.
Qed.

Lemma allLines_commit_word (segment : str) (st : FlowState) :
  isWord segment = true ->
  allLines (commitLine metrics columnCount segment st)
  = allLines st ++ [segment].
Proof.
  unfold isWord. rewrite andb_true_iff. intros [Hne Hw].
  rewrite allLines_commitLine, (trimEnd_word _ Hw).
  apply negb_true_iff in Hne. now rewrite Hne.
Qed.

Lemma getColumnWidth_in (st : FlowState) :
  columnWidthsPx metrics <> [] ->
  In (getColumnWidth metrics st) (columnWidthsPx metrics).
Proof.
  intros Hne. unfold getColumnWidth.
  destruct (nth_error _ _) as [x|] eqn:E; [now apply nth_error_In in E|].
  now apply last_in.
Qed.

Variables lowest widest : Q.

Hypothesis widths_nonempty : columnWidthsPx metrics <> [].
Hypothesis widths_range :
  Forall (fun x => lowest <= x /\ x <= widest) (columnWidthsPx metrics).

Lemma getColumnWidth_range (st : FlowState) :
  lowest <= getColumnWidth metrics st /\ getColumnWidth metrics st <= widest.
Proof.
  pose proof (getColumnWidth_in st widths_nonempty) as Hin.
  rewrite Forall_forall in widths_range. now apply widths_range.
Qed.

(** The lines committed while a word is split, and the segment left in
    the line buffer, make up the word; each of them fits the widest
    column when single characters fit the narrowest; and when nothing is
    committed, the whole word fitted the column at hand or was a single
    character. *)
Lemma splitLoop_segments (n : nat) :
  forall remaining st st',
    splitLoop measure metrics columnCount fuel n remaining st = Some st' ->
    isWord remaining = true ->
    (length remaining < fuel)%nat ->
    (forall c, In c remaining -> measure [c] <= lowest + tolerance) ->
    exists segs,
      allLines st' = allLines st ++ segs
      /\ currentLine st' <> []
      /\ concat (segs ++ [currentLine st']) = remaining
      /\ Forall (fun s => measure s <= widest + tolerance)
                (segs ++ [currentLine st'])
      /\ (segs = [] ->
          measure remaining <= getColumnWidth metrics st + tolerance
          \/ length remaining = 1%nat).
Proof.
  induction n as [|n IH]; intros remaining st st'; [discriminate|].
  intros Hrun Hword Hfuel Hchars.
  assert (Hne : remaining <> [])
    by (intros ->; discriminate).
  assert (Hns : forallb (fun c => negb (isSpace c)) remaining = true)
    by (unfold isWord in Hword; apply andb_true_iff in Hword; tauto).
  cbn [splitLoop] in Hrun.
  assert (Hlen : (0 <? length remaining)%nat = true)
    by (apply Nat.ltb_lt; destruct remaining; [congruence | simpl; lia]).
  rewrite Hlen in Hrun.
  destruct (chooseBest_spec measure fuel remaining
              (getColumnWidth metrics st) Hfuel)
    as (best & Hb & H1 & Hle & Hfit).
  specialize (Hle Hne). rewrite Hb in Hrun. simpl in Hrun.
  destruct (getColumnWidth_range st) as [Hlo Hhi].
  assert (Hseg : measure (firstn best remaining) <= widest + tolerance).
  { destruct Hfit as [Hfit | [-> _]].
    - apply Qle_bool_iff in Hfit. lra.
    - destruct remaining as [|c r]; [congruence|]. simpl.
      specialize (Hchars c (or_introl eq_refl)). lra. }
  destruct (Nat.eqb_spec best (length remaining)) as [Heq | Hneq].
  - destruct n as [|n]; [discriminate|]. simpl in Hrun.
    injection Hrun as <-. exists []. cbn [currentLine app].
    assert (Hall : firstn best remaining = remaining)
      by (apply firstn_all2; lia).
    rewrite Hall in *. repeat split.
    + rewrite app_nil_r.
      transitivity (allLines (ensureColumnSpaceForNextLine metrics columnCount st));
        [reflexivity | apply allLines_ensure].
    + exact Hne.
    + apply app_nil_r.
    + constructor; [exact Hseg | constructor].
    + intros _. destruct Hfit as [Hfit | [-> _]].
      * left. now apply Qle_bool_iff in Hfit.
      * right. lia.
  - assert (Hsegw : isWord (firstn best remaining) = true).
    { unfold isWord. rewrite (forallb_firstn _ _ _ Hns), andb_true_r.
      destruct remaining; [congruence|]. destruct best; [lia | reflexivity]. }
    assert (Hrest : isWord (skipn best remaining) = true).
    { unfold isWord. rewrite (forallb_skipn _ _ _ Hns), andb_true_r.
      apply negb_true_iff, isEmpty_false. intros Hnil.
      apply (f_equal (@length char)) in Hnil. rewrite length_skipn in Hnil.
      simpl in Hnil. lia. }
    destruct (IH _ _ _ Hrun Hrest) as (segs & Hlines & Hcur & Hcat & Hall & _).
    + rewrite length_skipn. lia.
    + intros c Hc. apply Hchars.
      rewrite <- (firstn_skipn best remaining). apply in_or_app. now right.
    + exists (firstn best remaining :: segs). repeat split.
      * rewrite Hlines, (allLines_commit_word _ _ Hsegw), allLines_ensure.
        now rewrite <- app_assoc.
      * exact Hcur.
      * simpl. rewrite Hcat. apply firstn_skipn.
      * simpl. constructor; assumption.
      * discriminate.
Qed.

End SplitSegments.

(** C3, as the code has it: a word token wider than the column at hand,
    each of whose characters fits the narrowest column, is split into at
    least two segments (the committed lines and the one left in the line
    buffer) that make up the word, each at most as wide as the widest
    column - the column width itself when all columns are equally wide. *)
Theorem splitLongWord_segments (measure : str -> Q) (metrics : LayoutMetrics)
        (columnCount : Z) (fuel : nat) (st : FlowState) (w : str)
        (lowest widest : Q) :
  columnWidthsPx metrics <> [] ->
  Forall (fun x => lowest <= x /\ x <= widest) (columnWidthsPx metrics) ->
  isWord w = true ->
  (length w < fuel)%nat ->
  (forall c, In c w -> measure [c] <= lowest + tolerance) ->
  getColumnWidth metrics st + tolerance < measure w ->
  exists st' segs,
    splitLongWord measure metrics columnCount fuel w st = Some st'
    /\ allLines st' = allLines st ++ segs
    /\ (2 <= length (segs ++ [currentLine st']))%nat
    /\ concat (segs ++ [currentLine st']) = w
    /\ Forall (fun s => measure s <= widest + tolerance)
              (segs ++ [currentLine st']).
Proof.
  intros Hne Hrange Hword Hfuel Hchars Hwide.
  destruct (splitLoop_total measure metrics columnCount fuel fuel w st
              Hfuel Hfuel) as [st' Hrun].
  destruct (splitLoop_segments measure metrics columnCount fuel lowest widest
              Hne Hrange fuel w st st' Hrun Hword Hfuel Hchars)
    as (segs & Hlines & Hcur & Hcat & Hall & Hfirst).
  exists st', segs. repeat split; try assumption.
  rewrite length_app. simpl.
  destruct segs as [|s segs]; [|simpl; lia].
  exfalso. destruct (Hfirst eq_refl) as [Hfit | Hone]; [lra|].
  destruct w as [|c [|d w]]; simpl in Hone; try lia.
  specialize (Hchars c (or_introl eq_refl)).
  destruct (getColumnWidth_range metrics lowest widest Hne Hrange st) as [Hlo _].
  lra.
Qed.

Lemma splitLongWord_segments_witness :
  columnWidthsPx (sampleMetrics [100; 100] 16 16) <> []
  /\ isWord (letters 97%N 25) = true
  /\ exists st' segs,
       splitLongWord (tenPerChar 16 []) (sampleMetrics [100; 100] 16 16) 2 26
                     (letters 97%N 25) initialState = Some st'
       /\ allLines st' = allLines initialState ++ segs
       /\ (2 <= length (segs ++ [currentLine st']))%nat
       /\ concat (segs ++ [currentLine st']) = letters 97%N 25
       /\ Forall (fun s => tenPerChar 16 [] s <= 100 + tolerance)
                 (segs ++ [currentLine st']).
Proof.
  assert (H1 : columnWidthsPx (sampleMetrics [100; 100] 16 16) <> [])
    by discriminate.
  assert (H2 : isWord (letters 97%N 25) = true) by reflexivity.
  split; [exact H1|]. split; [exact H2|].
  apply (splitLongWord_segments (tenPerChar 16 [])
           (sampleMetrics [100; 100] 16 16) 2 26 initialState
           (letters 97%N 25) 100 100 H1).
  - repeat constructor; apply Qle_bool_iff; reflexivity.
  - exact H2.
  - simpl. lia.
  - intros c _. apply Qle_bool_iff. reflexivity.
  - reflexivity.
Defined.

(** C3 as stated fails for a character wider than the column: the word
    [a], 10px wide, in a column of 5px is taken whole, as one segment that
    is wider than the column. *)
Lemma splitLongWord_counterexample :
  isWord [97%N] = true
  /\ getColumnWidth (sampleMetrics [5] 16 16) initialState + tolerance
     < tenPerChar 16 [] [97%N]
  /\ splitLongWord (tenPerChar 16 []) (sampleMetrics [5] 16 16) 1 2
                   [97%N] initialState
     = Some (mkState [] (mkPage []) [] 0 [97%N] (tenPerChar 16 [] [97%N]))
  /\ allLines (mkState [] (mkPage []) [] 0 [97%N] (tenPerChar 16 [] [97%N]))
     = []
  /\ ~ tenPerChar 16 [] [97%N] <= 5 + tolerance.
Proof.
  repeat split; try reflexivity.
  intros H. apply Qle_bool_iff in H. vm_compute in H. discriminate.
Qed.

(** ** The width a split is searched for *)

(** C7 fails on the code: in [splitLongWord] the width is read before
    [ensureColumnSpaceForNextLine] moves on to the next column.  With
    columns of 100px and 10px that hold one line each and 25 characters of
    10px, the second iteration searches with 100px while the column being
    filled is the one of 10px, and a line of 100px is laid out in it. *)
Theorem splitLongWord_stale_width :
  layoutText (Canvas tenPerChar) (sampleConfig (letters 97%N 25) 2)
             (sampleMetrics [100; 10] 16 16)
  = Some [mkPage [mkColumn [letters 97%N 10]; mkColumn [letters 97%N 10]];
          mkPage [mkColumn [letters 97%N 1]; mkColumn [letters 97%N 4]]]
  /\ getColumnWidth (sampleMetrics [100; 10] 16 16)
       (commitLine (sampleMetrics [100; 10] 16 16) 2 (letters 97%N 10)
                   initialState)
     = 100
  /\ getColumnWidth (sampleMetrics [100; 10] 16 16)
       (ensureColumnSpaceForNextLine (sampleMetrics [100; 10] 16 16) 2
          (commitLine (sampleMetrics [100; 10] 16 16) 2 (letters 97%N 10)
                      initialState))
     = 10
  /\ chooseBest (tenPerChar 16 []) 26 (letters 97%N 15) 100 = Some 10%nat
  /\ 10 + tolerance < tenPerChar 16 [] (letters 97%N 10).
Proof. repeat split; vm_compute; reflexivity. Qed.

(** * Further properties of the code *)

(** ** Strings *)

Lemma str_ind2 (P : str -> Prop) :
  P [] -> (forall c, P [c]) ->
  (forall c d s, P s -> P (d :: s) -> P (c :: d :: s)) ->
  forall s, P s.
Proof.
  intros H0 H1 H2 s.
  assert (H : P s /\ forall c, P (c :: s)).
  { induction s as [|d s [IHs IHc]]; [split; [exact H0 | exact H1]|].
    split; [apply IHc|]. intros c. apply H2; [exact IHs | apply IHc]. }
  apply H.
Qed.

Lemma normalize_cons2 (c d : char) (s : str) :
  normalize (c :: d :: s)
  = if ((c =? CR) && (d =? LF))%N then LF :: normalize s
    else c :: normalize (d :: s).
Proof. reflexivity. Qed.

Lemma isSpace_CR : isSpace CR = true.
Proof. reflexivity. Qed.

Lemma isSpace_LF : isSpace LF = true.
Proof. reflexivity. Qed.

Lemma ink_cons (c : char) (s : str) :
  ink (c :: s) = if negb (isSpace c) then c :: ink s else ink s.
Proof. reflexivity. Qed.

Lemma ink_app (a b : str) : ink (a ++ b) = ink a ++ ink b.
Proof. apply filter_app. Qed.

Lemma ink_normalize (s : str) : ink (normalize s) = ink s.
Proof.
  induction s as [|c|c d s IHs IHd] using str_ind2; try reflexivity.
  rewrite normalize_cons2.
  destruct ((c =? CR) && (d =? LF))%N eqn:E.
  - apply andb_true_iff in E. destruct E as [Ec Ed].
    apply N.eqb_eq in Ec, Ed. subst c d.
    change (ink (LF :: normalize s)) with (ink (normalize s)).
    change (ink (CR :: LF :: s)) with (ink s). exact IHs.
  - rewrite (ink_cons c (normalize (d :: s))), (ink_cons c (d :: s)).
    now rewrite IHd.
Qed.

(** X: [normalize] only takes out carriage returns: a text without any is
    returned as it is, and any text keeps all its other characters in
    order. *)
Theorem normalize_removes_only_CR (s : str) :
  filter (fun c => negb (c =? CR)%N) (normalize s)
  = filter (fun c => negb (c =? CR)%N) s
  /\ (forallb (fun c => negb (c =? CR)%N) s = true -> normalize s = s)
  /\ (length (normalize s) <= length s)%nat.
Proof.
  split; [|split; [|apply normalize_length]].
  - induction s as [|c|c d s IHs IHd] using str_ind2; try reflexivity.
    rewrite normalize_cons2.
    destruct ((c =? CR) && (d =? LF))%N eqn:E.
    + apply andb_true_iff in E. destruct E as [Ec Ed].
      apply N.eqb_eq in Ec, Ed. subst c d.
      change (filter (fun c => negb (c =? CR)%N) (CR :: LF :: s))
        with (LF :: filter (fun c => negb (c =? CR)%N) s).
      change (filter (fun c => negb (c =? CR)%N) (LF :: normalize s))
        with (LF :: filter (fun c => negb (c =? CR)%N) (normalize s)).
      now rewrite IHs.
    + cbn [filter] in *. destruct (negb (c =? CR)%N); now rewrite IHd.
  - induction s as [|c|c d s IHs IHd] using str_ind2; try reflexivity.
    intros H. rewrite normalize_cons2.
    cbn [forallb] in H. apply andb_true_iff in H. destruct H as [Hc Hd].
    apply negb_true_iff in Hc. rewrite Hc. simpl andb. cbv iota.
    f_equal. apply IHd. exact Hd.
Qed.

Lemma normalize_removes_only_CR_witness :
  normalize [97; 10; 98]%N = [97; 10; 98]%N.
Proof.
  exact (proj1 (proj2 (normalize_removes_only_CR [97; 10; 98]%N)) eq_refl).
Defined.

Lemma trimEnd_cons (c : char) (s : str) :
  trimEnd (c :: s)
  = match trimEnd s with
    | [] => if isSpace c then [] else [c]
    | t => c :: t
    end.
Proof. reflexivity. Qed.

Lemma trimEnd_fixed (u : str) :
  u <> [] -> isSpace (last u LF) = false -> trimEnd u = u.
Proof.
  induction u as [|c u IH]; [congruence|]. intros _ Hlast.
  rewrite trimEnd_cons. destruct u as [|d u].
  - simpl in *. now rewrite Hlast.
  - rewrite IH; [reflexivity | discriminate | exact Hlast].
Qed.

Lemma trimEnd_split (s : str) :
  exists t,
    s = trimEnd s ++ t /\ forallb isSpace t = true
    /\ (trimEnd s <> [] -> isSpace (last (trimEnd s) LF) = false).
Proof.
  induction s as [|c s (t & Hs & Ht & Hlast)].
  - exists []. repeat split. intros H; now elim H.
  - rewrite trimEnd_cons. destruct (trimEnd s) as [|x r] eqn:E.
    + destruct (isSpace c) eqn:Ec.
      * exists (c :: s). repeat split.
        -- simpl. rewrite Ec. simpl in Hs. now rewrite Hs.
        -- intros H; now elim H.
      * exists s. repeat split.
        -- simpl in Hs. now rewrite Hs.
        -- intros _. exact Ec.
    + exists t. repeat split.
      * simpl. now rewrite Hs at 1.
      * exact Ht.
      * intros _. change (last (c :: x :: r) LF) with (last (x :: r) LF).
        apply Hlast. discriminate.
Qed.

Lemma ink_spaces (t : str) : forallb isSpace t = true -> ink t = [].
Proof.
  induction t as [|c t IH]; [reflexivity|]. cbn [forallb].
  intros H. apply andb_true_iff in H. destruct H as [Hc Ht].
  rewrite ink_cons, Hc. simpl. now apply IH.
Qed.

Lemma ink_trimEnd (s : str) : ink (trimEnd s) = ink s.
Proof.
  destruct (trimEnd_split s) as (t & Hs & Ht & _).
  rewrite Hs at 2. now rewrite ink_app, (ink_spaces _ Ht), app_nil_r.
Qed.

(** X: the trimming of [commitLine] cuts off a run of white space at the
    end of the line and nothing else; what is left does not end in white
    space, and trimming it again changes nothing. *)
Theorem trimEnd_spec (s : str) :
  (exists t, s = trimEnd s ++ t /\ forallb isSpace t = true)
  /\ (trimEnd s <> [] -> isSpace (last (trimEnd s) LF) = false)
  /\ trimEnd (trimEnd s) = trimEnd s
  /\ ink (trimEnd s) = ink s.
Proof.
  destruct (trimEnd_split s) as (t & Hs & Ht & Hlast).
  split; [exists t; split; assumption|]. split; [exact Hlast|].
  split.
  - destruct (trimEnd s) as [|x r] eqn:E; [reflexivity|].
    apply trimEnd_fixed; [discriminate | apply Hlast; discriminate].
  - apply ink_trimEnd.
Qed.

(** ** Tokens *)

Lemma takeWhile_space_tokens (s : str) :
  Forall (fun t => tokenWellFormed t = true /\ isWordToken t = false)
         (map (fun ch => if (ch =? LF)%N then mkToken newline [LF]
                         else mkToken space [ch])
              (takeWhile isSpace s)).
Proof.
  induction s as [|c s IH]; simpl; [constructor|].
  destruct (isSpace c) eqn:Ec; simpl; [|constructor].
  constructor; [|exact IH].
  destruct (c =? LF)%N eqn:El; unfold tokenWellFormed; simpl.
  - split; reflexivity.
  - now rewrite Ec, El.
Qed.

(** The tokens pushed for one match: white space gives tokens that are no
    words, anything else a single word. *)
Lemma chunkTokens_shape (s chunk rest : str) :
  regexExec s = Some (chunk, rest) ->
  (Forall (fun t => tokenWellFormed t = true /\ isWordToken t = false)
          (chunkTokens chunk)
   /\ chunkTokens chunk <> [])
  \/ (chunkTokens chunk = [mkToken word chunk] /\ isWord chunk = true
      /\ (rest = [] \/ exists c r, rest = c :: r /\ isSpace c = true)).
Proof.
  destruct s as [|c s]; simpl; [discriminate|].
  destruct (c =? LF)%N eqn:Ec.
  - intros H; injection H as <- <-. apply N.eqb_eq in Ec. subst c.
    left. split; [|discriminate]. repeat constructor.
  - destruct (isSpace c) eqn:Es; simpl; rewrite ?Es; simpl;
      intros H; injection H as <- <-; unfold chunkTokens.
    + left. destruct (Str.eqb _ _) eqn:Eq.
      * split; [|discriminate]. constructor; [|constructor].
        split; [exact Eq | reflexivity].
      * assert (Ha : allSpace (c :: takeWhile isSpace s) = true)
          by (unfold allSpace; simpl; now rewrite Es, takeWhile_all).
        rewrite Ha. split; [|simpl; discriminate].
        pose proof (takeWhile_space_tokens (c :: s)) as Hall.
        simpl in Hall. rewrite Es in Hall. exact Hall.
    + right. destruct (Str.eqb _ _) eqn:Eq.
      * apply str_eqb_eq in Eq. injection Eq as -> _. discriminate.
      * assert (Ha : allSpace (c :: takeWhile (fun x => negb (isSpace x)) s)
                     = false)
          by (unfold allSpace; simpl; now rewrite Es).
        rewrite Ha. split; [reflexivity|]. split.
        -- unfold isWord. simpl. now rewrite Es, takeWhile_all.
        -- clear. induction s as [|d s IH]; simpl; [now left|].
           destruct (isSpace d) eqn:Ed; simpl; [|exact IH].
           right. exists d, s. split; [reflexivity | exact Ed].
Qed.

Lemma wordsSeparated_cons (t : Token) (rest : list Token) :
  wordsSeparated (t :: rest)
  = match rest with
    | [] => true
    | u :: _ => negb (isWordToken t && isWordToken u) && wordsSeparated rest
    end.
Proof. reflexivity. Qed.

Lemma wordsSeparated_prefix (l toks : list Token) :
  Forall (fun t => tokenWellFormed t = true /\ isWordToken t = false) l ->
  wordsSeparated (l ++ toks) = wordsSeparated toks.
Proof.
  induction l as [|t l IH]; intros H; [reflexivity|].
  inversion H as [|? ? [_ Ht] Hl]; subst.
  change ((t :: l) ++ toks) with (t :: (l ++ toks)).
  rewrite wordsSeparated_cons, Ht, <- (IH Hl).
  destruct (l ++ toks); reflexivity.
Qed.

Lemma tokenizeLoop_shape (n : nat) :
  forall s toks,
    tokenizeLoop n s = Some toks ->
    Forall (fun t => tokenWellFormed t = true) toks
    /\ wordsSeparated toks = true
    /\ (startsWithSpace s -> headNotWord toks).
Proof.
  induction n as [|n IH]; intros s toks; [discriminate|]. simpl.
  destruct (regexExec s) as [[chunk rest]|] eqn:E.
  - destruct (tokenizeLoop n rest) as [toks'|] eqn:Et; [|discriminate].
    simpl. intros H; injection H as <-.
    destruct (IH _ _ Et) as (Hwf & Hsep & Hhead).
    destruct (regexExec_split _ _ _ E) as [Hs Hc].
    destruct (chunkTokens_shape _ _ _ E) as [[Hall Hne] | (Hct & Hw & Hrest)].
    + split; [|split].
      * apply Forall_app. split; [|exact Hwf].
        eapply Forall_impl; [|exact Hall]. intros t Ht. apply Ht.
      * now rewrite wordsSeparated_prefix.
      * intros _. destruct (chunkTokens chunk) as [|t ts]; [congruence|].
        inversion Hall as [|? ? [_ Ht] _]; subst. exact Ht.
    + rewrite Hct. split; [|split].
      * constructor; [exact Hw | exact Hwf].
      * change ([mkToken word chunk] ++ toks') with (mkToken word chunk :: toks').
        rewrite wordsSeparated_cons, Hsep. specialize (Hhead Hrest).
        destruct toks' as [|u toks']; [reflexivity|].
        simpl in Hhead. rewrite Hhead. reflexivity.
      * intros [-> | (c & r & -> & Hsp)]; [discriminate|].
        exfalso. unfold isWord in Hw. destruct chunk as [|x chunk];
          [congruence|]. simpl in Hs. injection Hs as -> _.
        simpl in Hw. rewrite Hsp in Hw. discriminate.
  - intros H; injection H as <-. repeat split; constructor.
Qed.

(** X: every token of [tokenize] has the shape of its type: a newline is
    a line feed, a space is one white-space character other than a line
    feed, a word is a non-empty run without white space. *)
Theorem tokenize_wellformed (text : str) :
  exists toks,
    tokenize text = Some toks
    /\ Forall (fun t => tokenWellFormed t = true) toks.
Proof.
  destruct (tokenizeFuel_total (S (length text)) text) as (toks & Ht & _);
    [lia|].
  exists toks. split; [exact Ht|].
  apply (tokenizeLoop_shape _ _ _ Ht).
Qed.

(** X: words are maximal: [tokenize] never returns two word tokens in a
    row, so that a run of characters without white space is one token. *)
Theorem tokenize_words_maximal (text : str) :
  exists toks,
    tokenize text = Some toks /\ wordsSeparated toks = true.
Proof.
  destruct (tokenizeFuel_total (S (length text)) text) as (toks & Ht & _);
    [lia|].
  exists toks. split; [exact Ht|].
  apply (tokenizeLoop_shape _ _ _ Ht).
Qed.

(** ** What the layout holds of the text *)

Section Content.

Variable measure : str -> Q.
Variable metrics : LayoutMetrics.
Variable columnCount : Z.
Variable fuel : nat.

Lemma currentLine_ensure (st : FlowState) :
  currentLine (ensureColumnSpaceForNextLine metrics columnCount st)
  = currentLine st.
Proof.
  unfold ensureColumnSpaceForNextLine, finishColumn.
  destruct (Qle_bool _ _); [reflexivity|].
  destruct (_ =? columnCount)%Z; reflexivity.
Qed.

Lemma stateInk_ensure (st : FlowState) :
  stateInk (ensureColumnSpaceForNextLine metrics columnCount st) = stateInk st.
Proof. unfold stateInk. now rewrite allLines_ensure, currentLine_ensure. Qed.

Lemma ink_committed (raw : str) :
  ink (if isEmpty (trimEnd raw) then [NBSP] else trimEnd raw) = ink raw.
Proof.
  destruct (trimEnd raw) as [|c t] eqn:E; simpl isEmpty; cbv iota.
  - rewrite <- (ink_trimEnd raw), E. reflexivity.
  - rewrite <- E. apply ink_trimEnd.
Qed.

Lemma stateInk_commitLine (raw : str) (st : FlowState) :
  stateInk (commitLine metrics columnCount raw st)
  = ink (concat (allLines st)) ++ ink raw.
Proof.
  unfold stateInk. rewrite allLines_commitLine, concat_app, ink_app.
  cbn [concat]. rewrite !app_nil_r, ink_committed. reflexivity.
Qed.

Lemma stateInk_commit_buffer (st : FlowState) :
  stateInk (commitLine metrics columnCount (currentLine st) st) = stateInk st.
Proof. apply stateInk_commitLine. Qed.

Lemma stateInk_buffer (st : FlowState) (line : str) (width : Q) :
  stateInk (mkState (pages st) (currentPage st) (currentColumnLines st)
                    (cursorY st) line width)
  = ink (concat (allLines st)) ++ ink line.
Proof. reflexivity. Qed.

Lemma currentLine_commitLine (raw : str) (st : FlowState) :
  currentLine (commitLine metrics columnCount raw st) = [].
Proof. reflexivity. Qed.

(** Splitting a word moves its characters, all of them and in order, to
    the lines and the line buffer. *)
Lemma splitLoop_ink (n : nat) :
  forall remaining st st',
    splitLoop measure metrics columnCount fuel n remaining st = Some st' ->
    currentLine st = [] ->
    stateInk st' = stateInk st ++ ink remaining.
Proof.
  induction n as [|n IH]; intros remaining st st'; [discriminate|].
  cbn [splitLoop]. destruct (0 <? length remaining)%nat eqn:El.
  - destruct (chooseBest measure fuel remaining (getColumnWidth metrics st))
      as [best|]; [|discriminate].
    cbn [obind]. intros Hrun Hcur.
    assert (Hst : stateInk st = ink (concat (allLines st)))
      by (unfold stateInk; rewrite Hcur; apply app_nil_r).
    destruct (Nat.eqb_spec best (length remaining)) as [Heq | Hneq].
    + destruct n as [|n]; [discriminate|]. cbn [splitLoop length] in Hrun.
      simpl Nat.ltb in Hrun. injection Hrun as <-.
      rewrite stateInk_buffer, allLines_ensure, Heq, firstn_all, Hst.
      reflexivity.
    + rewrite (IH _ _ _ Hrun (currentLine_commitLine _ _)).
      rewrite stateInk_commitLine, allLines_ensure, Hst, <- app_assoc,
        <- ink_app, firstn_skipn. reflexivity.
  - intros H Hcur. injection H as <-.
    apply Nat.ltb_ge in El. destruct remaining; [|simpl in El; lia].
    symmetry. apply app_nil_r.
Qed.

Lemma processToken_ink (token : Token) (st st' : FlowState) :
  processToken measure metrics columnCount fuel token st = Some st' ->
  tokenWellFormed token = true ->
  stateInk st' = stateInk st ++ ink (value token).
Proof.
  unfold processToken, tokenWellFormed. destruct (type token).
  - intros H Hwf. apply str_eqb_eq in Hwf. rewrite Hwf.
    change (ink [LF]) with (@nil char). rewrite app_nil_r.
    destruct (isEmpty (currentLine st)) eqn:E; simpl negb in H; cbv iota in H;
      injection H as <-.
    + apply isEmpty_true in E. rewrite stateInk_commitLine.
      unfold stateInk. now rewrite E.
    + apply stateInk_commit_buffer.
  - intros H Hwf.
    assert (Hink : ink (value token) = []).
    { destruct (value token) as [|c [|d r]]; try discriminate.
      apply andb_true_iff in Hwf. destruct Hwf as [Hc _].
      rewrite ink_cons, Hc. reflexivity. }
    rewrite Hink, app_nil_r.
    destruct (isEmpty (currentLine st)); [now injection H as <-|].
    destruct (Qle_bool _ _); injection H as <-.
    + rewrite stateInk_buffer, ink_app, Hink, app_nil_r. reflexivity.
    + apply stateInk_commit_buffer.
  - intros H _.
    set (st1 := if Qlt_bool 0 (currentLineWidth st) && _ then _ else st) in H.
    assert (H1 : stateInk st1 = stateInk st)
      by (subst st1; destruct (_ && _);
          [apply stateInk_commit_buffer | reflexivity]).
    destruct (Qle_bool (measure (value token)) _).
    + injection H as <-. rewrite stateInk_buffer, ink_app, app_assoc.
      f_equal. rewrite <- H1.
      destruct (isEmpty (currentLine st1));
        [rewrite <- (stateInk_ensure st1) |]; reflexivity.
    + unfold splitLongWord in H. rewrite <- H1.
      destruct (isEmpty (currentLine st1)) eqn:E; simpl negb in H;
        cbv iota in H.
      * apply isEmpty_true in E. apply (splitLoop_ink _ _ _ _ H E).
      * rewrite (splitLoop_ink _ _ _ _ H (currentLine_commitLine _ _)).
        now rewrite stateInk_commit_buffer.
Qed.

Lemma processTokens_ink (tokens : list Token) :
  forall st st',
    processTokens measure metrics columnCount fuel tokens st = Some st' ->
    Forall (fun t => tokenWellFormed t = true) tokens ->
    stateInk st' = stateInk st ++ ink (tokenValues tokens).
Proof.
  induction tokens as [|t tokens IH]; intros st st' H Hwf; simpl in H.
  - injection H as <-. symmetry. apply app_nil_r.
  - destruct (processToken measure metrics columnCount fuel t st)
      as [st1|] eqn:E; [|discriminate].
    simpl in H. inversion Hwf as [|? ? Ht Hts]; subst.
    rewrite (IH _ _ H Hts), (processToken_ink _ _ _ E Ht).
    unfold tokenValues. cbn [map concat]. now rewrite ink_app, app_assoc.
Qed.

Lemma pageLines_padLoop (missing : nat) :
  forall cols,
    pageLines (mkPage (padLoop missing cols)) = pageLines (mkPage cols).
Proof.
  induction missing as [|m IH]; intros cols; simpl; [reflexivity|].
  rewrite IH. unfold pageLines. simpl.
  rewrite map_app, concat_app. simpl. now rewrite app_nil_r.
Qed.

Lemma layoutLines_createEmptyPage (n : Z) :
  layoutLines [createEmptyPage n] = [].
Proof.
  unfold layoutLines, createEmptyPage, pageLines. simpl. rewrite app_nil_r.
  induction (Z.to_nat n) as [|k IH]; simpl; [reflexivity | exact IH].
Qed.

(** The lines of the pages are the lines of the state after the last line
    is committed: flushing and padding add none. *)
Lemma finishLayout_lines (st : FlowState) :
  layoutLines (finishLayout metrics columnCount st)
  = allLines (if negb (isEmpty (currentLine st))
              then commitLine metrics columnCount (currentLine st) st
              else st).
Proof.
  unfold finishLayout.
  set (st1 := if negb (isEmpty (currentLine st)) then _ else st).
  match goal with
  | |- context [if (length ?l =? 0)%nat then _ else _] =>
      assert (Hl : layoutLines l = allLines st1); [|set (pages1 := l) in *]
  end.
  { unfold allLines, layoutLines.
    destruct (0 <? length (currentColumnLines st1))%nat eqn:E1;
      [|destruct (0 <? length (columns (currentPage st1)))%nat eqn:E2];
      cbn [orb].
    - rewrite map_app, concat_app. cbn [map concat]. rewrite app_nil_r.
      unfold padColumns. rewrite pageLines_padLoop. unfold pageLines.
      cbn [columns]. rewrite map_app, concat_app. simpl.
      now rewrite app_nil_r.
    - rewrite map_app, concat_app. cbn [map concat]. rewrite app_nil_r.
      unfold padColumns. rewrite pageLines_padLoop. unfold pageLines.
      cbn [columns]. rewrite map_app, concat_app. simpl.
      now rewrite app_nil_r.
    - apply Nat.ltb_ge in E1, E2.
      destruct (currentColumnLines st1); [|simpl in E1; lia].
      unfold pageLines.
      destruct (columns (currentPage st1)); [|simpl in E2; lia].
      simpl. now rewrite !app_nil_r. }
  destruct (Nat.eqb_spec (length pages1) 0) as [E | E]; [|exact Hl].
  rewrite layoutLines_createEmptyPage, <- Hl.
  destruct pages1; [reflexivity | discriminate].
Qed.

Lemma finishLayout_ink (st : FlowState) :
  ink (concat (layoutLines (finishLayout metrics columnCount st)))
  = stateInk st.
Proof.
  rewrite finishLayout_lines.
  destruct (isEmpty (currentLine st)) eqn:E; simpl negb; cbv iota.
  - apply isEmpty_true in E. unfold stateInk. rewrite E.
    symmetry. apply app_nil_r.
  - rewrite <- (stateInk_commit_buffer st). unfold stateInk.
    rewrite currentLine_commitLine. symmetry. apply app_nil_r.
Qed.

End Content.

Lemma tokenize_shape (n : nat) (text : str) :
  (length text < n)%nat ->
  exists toks,
    tokenizeFuel n text = Some toks
    /\ tokenValues toks = normalize text
    /\ Forall (fun t => tokenWellFormed t = true) toks.
Proof.
  intros Hn. destruct (tokenizeFuel_total n text Hn) as (toks & Ht & Hv).
  exists toks. repeat split; try assumption.
  apply (tokenizeLoop_shape _ _ _ Ht).
Qed.

(** What [layoutText] does with a canvas and at least one column width:
    the run of the token loop behind the pages it returns. *)
Lemma layoutText_canvas_run (measureText : Q -> str -> str -> Q)
      (config : LayoutConfig.t) (metrics : LayoutMetrics) :
  columnWidthsPx metrics <> [] ->
  exists toks st,
    tokenize (LayoutConfig.text config) = Some toks
    /\ tokenValues toks = normalize (LayoutConfig.text config)
    /\ Forall (fun t => tokenWellFormed t = true) toks
    /\ processTokens
         (measureText (fontSizePx metrics) (LayoutConfig.fontFamily config))
         metrics (columnCountOf config)
         (S (length (LayoutConfig.text config))) toks initialState = Some st
    /\ layoutText (Canvas measureText) config metrics
       = Some (finishLayout metrics (columnCountOf config) st).
Proof.
  intros Hne.
  destruct (tokenize_shape (S (length (LayoutConfig.text config)))
              (LayoutConfig.text config)) as (toks & Ht & Hv & Hwf); [lia|].
  destruct (layoutText_total (Canvas measureText) config metrics) as [pgs Hp].
  unfold layoutText, layoutTextFuel in *.
  destruct (columnWidthsPx metrics) as [|w ws] eqn:Ew; [congruence|].
  cbn [length Nat.eqb] in *. rewrite Ht in *. cbn [obind] in *.
  unfold flow in *.
  destruct (processTokens _ _ _ _ toks initialState) as [st|] eqn:Es;
    [|discriminate].
  exists toks, st. repeat split; assumption || reflexivity.
Qed.

(** X: with a canvas and at least one column width, the lines of the
    pages hold the characters of the text that are not white space, all of
    them, once each and in the order of the text. *)
Theorem layoutText_keeps_ink (measureText : Q -> str -> str -> Q)
        (config : LayoutConfig.t) (metrics : LayoutMetrics) :
  columnWidthsPx metrics <> [] ->
  exists pgs,
    layoutText (Canvas measureText) config metrics = Some pgs
    /\ ink (concat (layoutLines pgs)) = ink (LayoutConfig.text config).
Proof.
  intros Hne.
  destruct (layoutText_canvas_run measureText config metrics Hne)
    as (toks & st & _ & Hv & Hwf & Hrun & Hp).
  eexists. split; [exact Hp|].
  rewrite finishLayout_ink, (processTokens_ink _ _ _ _ _ _ _ Hrun Hwf).
  rewrite Hv, ink_normalize. reflexivity.
Qed.

Lemma layoutText_keeps_ink_witness :
  exists pgs,
    layoutText (Canvas tenPerChar)
               (sampleConfig [97; 98; 32; 13; 10; 99]%N 2)
               (sampleMetrics [100; 10] 16 16) = Some pgs
    /\ ink (concat (layoutLines pgs)) = [97; 98; 99]%N.
Proof.
  apply (layoutText_keeps_ink tenPerChar
           (sampleConfig [97; 98; 32; 13; 10; 99]%N 2)
           (sampleMetrics [100; 10] 16 16)).
  discriminate.
Defined.

(** ** The lines *)

Lemma committed_wellFormed (raw : str) :
  lineWellFormed (if isEmpty (trimEnd raw) then [NBSP] else trimEnd raw).
Proof.
  destruct (trimEnd raw) as [|c t] eqn:E; simpl isEmpty; cbv iota.
  - split; [discriminate | now left].
  - split; [discriminate|]. right. rewrite <- E.
    destruct (trimEnd_split raw) as (u & _ & _ & Hlast).
    apply trimEnd_fixed; [rewrite E; discriminate|].
    apply Hlast. rewrite E. discriminate.
Qed.

Lemma commitLine_wellFormed (metrics : LayoutMetrics) (columnCount : Z)
      (raw : str) (st : FlowState) :
  Forall lineWellFormed (allLines st) ->
  Forall lineWellFormed (allLines (commitLine metrics columnCount raw st)).
Proof.
  intros H. rewrite allLines_commitLine. apply Forall_app.
  split; [exact H|]. constructor; [apply committed_wellFormed | constructor].
Qed.

Lemma ensure_wellFormed (metrics : LayoutMetrics) (columnCount : Z)
      (st : FlowState) :
  Forall lineWellFormed (allLines st) ->
  Forall lineWellFormed
    (allLines (ensureColumnSpaceForNextLine metrics columnCount st)).
Proof. now rewrite allLines_ensure. Qed.

(** X: no line of the layout is the empty string, and no line ends in
    white space, except the placeholder (a no-break space) that stands for
    an empty line. *)
Theorem layoutText_lines_wellFormed (backend : Backend)
        (config : LayoutConfig.t) (metrics : LayoutMetrics) :
  exists pgs,
    layoutText backend config metrics = Some pgs
    /\ Forall lineWellFormed (layoutLines pgs).
Proof.
  destruct (layoutText_total backend config metrics) as [pgs Hp].
  exists pgs. split; [exact Hp|].
  unfold layoutText, layoutTextFuel in Hp.
  assert (Hempty : forall n, Forall lineWellFormed
                               (layoutLines [createEmptyPage n]))
    by (intros n; rewrite layoutLines_createEmptyPage; constructor).
  destruct backend as [| |measureText].
  - injection Hp as <-. apply Hempty.
  - destruct (length (columnWidthsPx metrics) =? 0)%nat;
      injection Hp as <-; apply Hempty.
  - destruct (length (columnWidthsPx metrics) =? 0)%nat;
      [injection Hp as <-; apply Hempty|].
    destruct (tokenizeFuel _ _) as [toks|]; [|discriminate].
    simpl in Hp. unfold flow in Hp.
    destruct (processTokens _ _ _ _ toks initialState) as [st|] eqn:Es;
      [|discriminate].
    injection Hp as <-. rewrite finishLayout_lines.
    assert (Hst : Forall lineWellFormed (allLines st)).
    { apply (processTokens_preserves _ _ _ _
               (fun s => Forall lineWellFormed (allLines s))
               (ensure_wellFormed metrics (columnCountOf config))
               (fun raw s => commitLine_wellFormed metrics
                               (columnCountOf config) raw s)
               (fun s _ _ H => H) _ _ _ Es).
      constructor. }
    destruct (negb _); [now apply commitLine_wellFormed | exact Hst].
Qed.

Section LineCount.

Variable measure : str -> Q.
Variable metrics : LayoutMetrics.
Variable columnCount : Z.
Variable fuel : nat.

Lemma commitLine_lines (raw : str) (st : FlowState) :
  length (allLines (commitLine metrics columnCount raw st))
  = S (length (allLines st)).
Proof. rewrite allLines_commitLine, length_app. simpl. lia. Qed.

Lemma processToken_lines_mono (token : Token) (st st' : FlowState) :
  processToken measure metrics columnCount fuel token st = Some st' ->
  (length (allLines st) <= length (allLines st'))%nat.
Proof.
  intros H.
  refine (processToken_preserves measure metrics columnCount fuel
            (fun s => (length (allLines st) <= length (allLines s))%nat)
            _ _ _ token st st' H _).
  - intros s Hs. now rewrite allLines_ensure.
  - intros raw s Hs. rewrite commitLine_lines. lia.
  - intros s line width Hs. exact Hs.
  - lia.
Qed.

Lemma processToken_newline (token : Token) (st st' : FlowState) :
  type token = newline ->
  processToken measure metrics columnCount fuel token st = Some st' ->
  length (allLines st') = S (length (allLines st)).
Proof.
  unfold processToken. intros -> H.
  destruct (negb (isEmpty (currentLine st))); injection H as <-;
    apply commitLine_lines.
Qed.

Lemma processTokens_lines (tokens : list Token) :
  forall st st',
    processTokens measure metrics columnCount fuel tokens st = Some st' ->
    (length (allLines st) + countNewlines tokens
     <= length (allLines st'))%nat.
Proof.
  induction tokens as [|t tokens IH]; intros st st' H; simpl in H.
  - injection H as <-. unfold countNewlines. simpl. lia.
  - destruct (processToken measure metrics columnCount fuel t st)
      as [st1|] eqn:E; [|discriminate].
    simpl in H. specialize (IH _ _ H).
    unfold countNewlines in *. cbn [filter].
    destruct (type t) eqn:Et.
    + rewrite (processToken_newline _ _ _ Et E) in IH. simpl. lia.
    + pose proof (processToken_lines_mono _ _ _ E). lia.
    + pose proof (processToken_lines_mono _ _ _ E). lia.
Qed.

Lemma finishLayout_lines_mono (st : FlowState) :
  (length (allLines st)
   <= length (layoutLines (finishLayout metrics columnCount st)))%nat.
Proof.
  rewrite finishLayout_lines.
  destruct (negb _); [rewrite commitLine_lines; lia | lia].
Qed.

End LineCount.

Lemma word_no_LF (v : str) :
  forallb (fun c => negb (isSpace c)) v = true ->
  filter (fun c => (c =? LF)%N) v = [].
Proof.
  induction v as [|c v IH]; [reflexivity|]. cbn [forallb filter].
  intros H. apply andb_true_iff in H. destruct H as [Hc Hv].
  destruct (c =? LF)%N eqn:E; [|now apply IH].
  apply N.eqb_eq in E. subst c. discriminate.
Qed.

Lemma countNewlines_values (toks : list Token) :
  Forall (fun t => tokenWellFormed t = true) toks ->
  countNewlines toks
  = length (filter (fun c => (c =? LF)%N) (tokenValues toks)).
Proof.
  induction toks as [|t toks IH]; intros H; [reflexivity|].
  inversion H as [|? ? Ht Hts]; subst.
  unfold countNewlines, tokenValues in *. cbn [map concat filter].
  rewrite filter_app, length_app. unfold str, char in *. rewrite <- (IH Hts).
  unfold tokenWellFormed in Ht. destruct (type t).
  - apply str_eqb_eq in Ht. rewrite Ht. reflexivity.
  - destruct (value t) as [|c [|d r]]; try discriminate.
    apply andb_true_iff in Ht. destruct Ht as [_ Hc].
    apply negb_true_iff in Hc. cbn [filter]. rewrite Hc. reflexivity.
  - unfold isWord in Ht. apply andb_true_iff in Ht. destruct Ht as [_ Hw].
    now rewrite (word_no_LF _ Hw).
Qed.

(** X: line breaks are kept: with a canvas and at least one column width
    the layout has at least one line for every line feed of the text
    (after CR LF is replaced), a blank line being laid out as a line of
    its own. *)
Theorem layoutText_keeps_line_feeds (measureText : Q -> str -> str -> Q)
        (config : LayoutConfig.t) (metrics : LayoutMetrics) :
  columnWidthsPx metrics <> [] ->
  exists pgs,
    layoutText (Canvas measureText) config metrics = Some pgs
    /\ (length (filter (fun c => (c =? LF)%N)
                       (normalize (LayoutConfig.text config)))
        <= length (layoutLines pgs))%nat.
Proof.
  intros Hne.
  destruct (layoutText_canvas_run measureText config metrics Hne)
    as (toks & st & _ & Hv & Hwf & Hrun & Hp).
  eexists. split; [exact Hp|].
  rewrite <- Hv, <- (countNewlines_values _ Hwf).
  pose proof (processTokens_lines _ _ _ _ _ _ _ Hrun) as H1.
  pose proof (finishLayout_lines_mono metrics (columnCountOf config) st) as H2.
  unfold initialState in H1 at 1. simpl in H1. lia.
Qed.

Lemma layoutText_keeps_line_feeds_witness :
  exists pgs,
    layoutText (Canvas tenPerChar) (sampleConfig [97; 10; 10; 98]%N 1)
               (sampleMetrics [100] 160 16) = Some pgs
    /\ (length (filter (fun c => (c =? LF)%N)
                       (normalize (LayoutConfig.text
                                     (sampleConfig [97; 10; 10; 98]%N 1))))
        <= length (layoutLines pgs))%nat.
Proof.
  apply (layoutText_keeps_line_feeds tenPerChar
           (sampleConfig [97; 10; 10; 98]%N 1) (sampleMetrics [100] 160 16)).
  discriminate.
Defined.

(** ** Text without ink *)

Lemma forallb_normalize (p : char -> bool) (s : str) :
  forallb p s = true -> forallb p (normalize s) = true.
Proof.
  induction s as [|c|c d s IHs IHd] using str_ind2; try (intros H; exact H).
  rewrite normalize_cons2. cbn [forallb]. intros H.
  apply andb_true_iff in H. destruct H as [Hc H].
  apply andb_true_iff in H. destruct H as [Hd Hs].
  destruct ((c =? CR) && (d =? LF))%N eqn:E.
  - apply andb_true_iff in E. destruct E as [_ Ed].
    apply N.eqb_eq in Ed. subst d. cbn [forallb]. rewrite Hd. simpl.
    now apply IHs.
  - cbn [forallb]. rewrite Hc. simpl. apply IHd. cbn [forallb].
    now rewrite Hd, Hs.
Qed.

Lemma blank_tokens (toks : list Token) :
  Forall (fun t => tokenWellFormed t = true) toks ->
  forallb (fun c => isSpace c && negb (c =? LF)%N) (tokenValues toks) = true ->
  Forall (fun t => type t = space) toks.
Proof.
  induction toks as [|t toks IH]; intros H Hb; [constructor|].
  inversion H as [|? ? Ht Hts]; subst.
  unfold tokenValues in *. cbn [map concat] in Hb.
  rewrite forallb_app in Hb. apply andb_true_iff in Hb.
  destruct Hb as [Hv Hrest].
  constructor; [|now apply IH].
  unfold tokenWellFormed in Ht. destruct (type t); [| reflexivity |].
  - apply str_eqb_eq in Ht. rewrite Ht in Hv. discriminate.
  - unfold isWord in Ht. destruct (value t) as [|c v]; [discriminate|].
    simpl in Ht, Hv. destruct (isSpace c); discriminate.
Qed.

Lemma processTokens_blank (measure : str -> Q) (metrics : LayoutMetrics)
      (columnCount : Z) (fuel : nat) (toks : list Token) (st : FlowState) :
  Forall (fun t => type t = space) toks -> currentLine st = [] ->
  processTokens measure metrics columnCount fuel toks st = Some st.
Proof.
  intros H Hcur. induction H as [|t toks Ht _ IH]; [reflexivity|].
  simpl. unfold processToken. rewrite Ht, Hcur. simpl. exact IH.
Qed.

(** X: a text of white space without line feeds lays out nothing: spaces
    at the start of a line are dropped, and [layoutText] returns the one
    page of empty columns. *)
Theorem layoutText_blank_text (measureText : Q -> str -> str -> Q)
        (config : LayoutConfig.t) (metrics : LayoutMetrics) :
  forallb (fun c => isSpace c && negb (c =? LF)%N) (LayoutConfig.text config)
  = true ->
  layoutText (Canvas measureText) config metrics
  = Some [createEmptyPage (columnCountOf config)].
Proof.
  intros Hblank.
  destruct (columnWidthsPx metrics) as [|w ws] eqn:Ew.
  - unfold layoutText, layoutTextFuel. now rewrite Ew.
  - assert (Hne : columnWidthsPx metrics <> []) by (rewrite Ew; discriminate).
    destruct (layoutText_canvas_run measureText config metrics Hne)
      as (toks & st & _ & Hv & Hwf & Hrun & Hp).
    rewrite Hp.
    assert (Hsp : Forall (fun t => type t = space) toks).
    { apply blank_tokens; [exact Hwf|]. rewrite Hv.
      now apply forallb_normalize. }
    rewrite (processTokens_blank _ _ _ _ _ initialState Hsp eq_refl) in Hrun.
    injection Hrun as <-. reflexivity.
Qed.

Lemma layoutText_blank_text_witness :
  layoutText (Canvas tenPerChar) (sampleConfig [32; 9; 32]%N 3)
             (sampleMetrics [100] 160 16)
  = Some [createEmptyPage (columnCountOf (sampleConfig [32; 9; 32]%N 3))].
Proof.
  exact (layoutText_blank_text tenPerChar (sampleConfig [32; 9; 32]%N 3)
           (sampleMetrics [100] 160 16) eq_refl).
Defined.

(** ** The longest prefix *)

Section Longest.

Variable measure : str -> Q.
Variable remaining : str.
Variable columnWidth : Q.

Let fitsb (k : nat) : bool :=
  Qle_bool (measure (firstn k remaining)) (columnWidth + tolerance).

Hypothesis measure_monotone :
  forall j k,
    (j <= k <= length remaining)%nat ->
    measure (firstn j remaining) <= measure (firstn k remaining).

Lemma fitsb_downward (j k : nat) :
  (j <= k <= length remaining)%nat -> fitsb k = true -> fitsb j = true.
Proof.
  unfold fitsb. intros Hjk Hk. apply Qle_bool_iff in Hk.
  apply Qle_bool_iff. pose proof (measure_monotone j k Hjk). lra.
Qed.

(** The search keeps [best = low - 1], every prefix longer than [high]
    too wide, and ends with [low = high + 1]. *)
Lemma binarySearch_longest (n : nat) :
  forall low high best,
    (1 <= low <= high + 1)%nat -> (high <= length remaining)%nat ->
    (high + 1 - low < n)%nat -> best = (low - 1)%nat ->
    (forall k, (high < k <= length remaining)%nat -> fitsb k = false) ->
    exists b,
      binarySearch measure n remaining columnWidth low high best = Some b
      /\ forall k, (b < k <= length remaining)%nat -> fitsb k = false.
Proof.
  induction n as [|n IH]; intros low high best Hlow Hhigh Hn Hbest Habove;
    [lia|].
  cbn [binarySearch]. destruct (low <=? high)%nat eqn:Elh.
  - apply Nat.leb_le in Elh.
    assert (Hmid : (low <= (low + high) / 2 <= high)%nat).
    { split; [apply Nat.div_le_lower_bound | apply Nat.Div0.div_le_upper_bound];
        lia. }
    set (mid := ((low + high) / 2)%nat) in *.
    fold (fitsb mid). destruct (fitsb mid) eqn:Ef.
    + apply IH; try lia. exact Habove.
    + apply IH; try lia. intros k Hk.
      destruct (Nat.le_gt_cases k high) as [Hle | Hgt]; [|apply Habove; lia].
      destruct (fitsb k) eqn:Ek; [|reflexivity].
      rewrite (fitsb_downward mid k) in Ef; [discriminate | lia | exact Ek].
  - apply Nat.leb_gt in Elh. exists best. split; [reflexivity|].
    intros k Hk. apply Habove. lia.
Qed.

End Longest.

(** X: when a prefix never measures wider than a longer one, an iteration
    of [splitLongWord] takes the longest prefix that fits: every longer
    prefix is too wide, and what is taken fits as soon as one character
    does. *)
Theorem chooseBest_longest (measure : str -> Q) (fuel : nat)
        (remaining : str) (columnWidth : Q) :
  remaining <> [] ->
  (length remaining < fuel)%nat ->
  (forall j k,
      (j <= k <= length remaining)%nat ->
      measure (firstn j remaining) <= measure (firstn k remaining)) ->
  exists best,
    chooseBest measure fuel remaining columnWidth = Some best
    /\ (1 <= best <= length remaining)%nat
    /\ (forall k,
          (best < k <= length remaining)%nat ->
          ~ measure (firstn k remaining) <= columnWidth + tolerance)
    /\ (measure (firstn 1 remaining) <= columnWidth + tolerance ->
        measure (firstn best remaining) <= columnWidth + tolerance).
Proof.
  intros Hne Hfuel Hmono.
  destruct (chooseBest_spec measure fuel remaining columnWidth Hfuel)
    as (best & Hb & H1 & Hle & Hfit).
  exists best. split; [exact Hb|]. split; [specialize (Hle Hne); lia|].
  destruct (binarySearch_longest measure remaining columnWidth Hmono fuel
              1 (length remaining) 0) as (b & Hrun & Habove);
    try lia.
  unfold chooseBest in Hb. rewrite Hrun in Hb. cbn [obind] in Hb.
  injection Hb as Hb. split.
  - intros k Hk Hfits. apply Qle_bool_iff in Hfits.
    rewrite Habove in Hfits; [discriminate|].
    destruct (Nat.eqb_spec b 0); lia.
  - intros Hone. destruct Hfit as [Hfit | [_ Hno]].
    + now apply Qle_bool_iff.
    + apply Qle_bool_iff in Hone. rewrite (Hno Hne) in Hone. discriminate.
Qed.

Lemma chooseBest_longest_witness :
  exists best,
    chooseBest (tenPerChar 16 []) 26 (letters 97%N 25) 100 = Some best
    /\ (1 <= best <= length (letters 97%N 25))%nat
    /\ (forall k,
          (best < k <= length (letters 97%N 25))%nat ->
          ~ tenPerChar 16 [] (firstn k (letters 97%N 25)) <= 100 + tolerance)
    /\ (tenPerChar 16 [] (firstn 1 (letters 97%N 25)) <= 100 + tolerance ->
        tenPerChar 16 [] (firstn best (letters 97%N 25)) <= 100 + tolerance).
Proof.
  apply (chooseBest_longest (tenPerChar 16 []) 26 (letters 97%N 25) 100).
  - discriminate.
  - simpl. lia.
  - intros j k Hjk. unfold tenPerChar. rewrite <- Zle_Qle, !length_firstn.
    lia.
Defined.

(** ** The width of the line buffer *)

Section BufferWidth.

Variable measure : str -> Q.
Variable metrics : LayoutMetrics.
Variable columnCount : Z.
Variable fuel : nat.
Variables lowest widest : Q.

Hypothesis widths_nonempty : columnWidthsPx metrics <> [].
Hypothesis widths_range :
  Forall (fun x => lowest <= x /\ x <= widest) (columnWidthsPx metrics).
Hypothesis bound_nonneg : 0 <= widest + tolerance.

Lemma currentLineWidth_ensure (st : FlowState) :
  currentLineWidth (ensureColumnSpaceForNextLine metrics columnCount st)
  = currentLineWidth st.
Proof.
  unfold ensureColumnSpaceForNextLine, finishColumn.
  destruct (Qle_bool _ _); [reflexivity|].
  destruct (_ =? columnCount)%Z; reflexivity.
Qed.

Lemma splitLoop_width (n : nat) :
  forall remaining st st',
    splitLoop measure metrics columnCount fuel n remaining st = Some st' ->
    (length remaining < fuel)%nat ->
    (forall c, In c remaining -> measure [c] <= lowest + tolerance) ->
    currentLineWidth st <= widest + tolerance ->
    currentLineWidth st' <= widest + tolerance.
Proof.
  induction n as [|n IH]; intros remaining st st'; [discriminate|].
  cbn [splitLoop]. destruct (0 <? length remaining)%nat eqn:El.
  - intros Hrun Hfuel Hchars Hst.
    assert (Hne : remaining <> [])
      by (intros ->; discriminate).
    destruct (chooseBest_spec measure fuel remaining
                (getColumnWidth metrics st) Hfuel)
      as (best & Hb & H1 & Hle & Hfit).
    rewrite Hb in Hrun. cbn [obind] in Hrun.
    destruct (getColumnWidth_range metrics lowest widest widths_nonempty
                widths_range st) as [Hlo Hhi].
    destruct (best =? length remaining)%nat.
    + destruct n as [|n]; [discriminate|]. cbn [splitLoop length] in Hrun.
      simpl Nat.ltb in Hrun. injection Hrun as <-. cbn [currentLineWidth].
      destruct Hfit as [Hfit | [-> _]].
      * apply Qle_bool_iff in Hfit. lra.
      * destruct remaining as [|c r]; [congruence|]. simpl.
        specialize (Hchars c (or_introl eq_refl)). lra.
    + apply (IH _ _ _ Hrun).
      * rewrite length_skipn. lia.
      * intros c Hc. apply Hchars.
        rewrite <- (firstn_skipn best remaining). apply in_or_app. now right.
      * exact bound_nonneg.
  - intros H _ _ Hst. now injection H as <-.
Qed.

Lemma processToken_width (token : Token) (st st' : FlowState) :
  processToken measure metrics columnCount fuel token st = Some st' ->
  (type token = word ->
   (length (value token) < fuel)%nat
   /\ forall c, In c (value token) -> measure [c] <= lowest + tolerance) ->
  currentLineWidth st <= widest + tolerance ->
  currentLineWidth st' <= widest + tolerance.
Proof.
  unfold processToken. intros H Hword Hst.
  destruct (getColumnWidth_range metrics lowest widest widths_nonempty
              widths_range st) as [Hlo Hhi].
  destruct (type token).
  - destruct (negb (isEmpty (currentLine st))); injection H as <-;
      exact bound_nonneg.
  - destruct (isEmpty (currentLine st)); [now injection H as <-|].
    destruct (Qle_bool _ _) eqn:E; injection H as <-.
    + apply Qle_bool_iff in E. cbn [currentLineWidth]. lra.
    + exact bound_nonneg.
  - destruct (Hword eq_refl) as [Hfuel Hchars].
    set (width := measure (value token)) in *.
    set (cw := getColumnWidth metrics st) in *.
    set (st1 := if Qlt_bool 0 (currentLineWidth st) && _ then _ else st) in H.
    destruct (Qle_bool width (cw + tolerance)) eqn:Ew.
    + apply Qle_bool_iff in Ew. injection H as <-. cbn [currentLineWidth].
      assert (H1 : currentLineWidth st1 + width <= cw + tolerance).
      { subst st1. unfold Qlt_bool.
        destruct (Qle_bool (currentLineWidth st) 0) eqn:E0; cbn [negb andb].
        - apply Qle_bool_iff in E0. lra.
        - destruct (Qle_bool (currentLineWidth st + width) (cw + tolerance))
            eqn:E1; cbn [negb].
          + apply Qle_bool_iff in E1. exact E1.
          + cbn [commitLine currentLineWidth]. lra. }
      destruct (isEmpty (currentLine st1));
        [rewrite currentLineWidth_ensure|]; lra.
    + unfold splitLongWord in H. apply (splitLoop_width _ _ _ _ H Hfuel Hchars).
      assert (H1 : currentLineWidth st1 <= widest + tolerance)
        by (subst st1; destruct (_ && _); [exact bound_nonneg | exact Hst]).
      destruct (negb (isEmpty (currentLine st1)));
        [exact bound_nonneg | exact H1].
Qed.

Lemma processTokens_width (tokens : list Token) :
  forall st st',
    processTokens measure metrics columnCount fuel tokens st = Some st' ->
    (forall t, In t tokens -> type t = word ->
               (length (value t) < fuel)%nat
               /\ forall c, In c (value t) -> measure [c] <= lowest + tolerance) ->
    currentLineWidth st <= widest + tolerance ->
    currentLineWidth st' <= widest + tolerance.
Proof.
  induction tokens as [|t tokens IH]; intros st st' H Hwords Hst; simpl in H.
  - now injection H as <-.
  - destruct (processToken measure metrics columnCount fuel t st)
      as [st1|] eqn:E; [|discriminate].
    simpl in H. apply (IH _ _ H).
    + intros u Hu. apply Hwords. now right.
    + apply (processToken_width _ _ _ E); [|exact Hst].
      apply Hwords. now left.
Qed.

End BufferWidth.

(** X: the accumulated width of the line buffer never exceeds the widest
    column width plus 0.1 (the column width, when all columns are equally
    wide), whatever tokens have been processed, as long as every character
    of the word tokens fits the narrowest column on its own. *)
Theorem lineBuffer_width_bounded (measure : str -> Q)
        (metrics : LayoutMetrics) (columnCount : Z) (fuel : nat)
        (lowest widest : Q) (tokens : list Token) (st : FlowState) :
  columnWidthsPx metrics <> [] ->
  Forall (fun x => lowest <= x /\ x <= widest) (columnWidthsPx metrics) ->
  0 <= widest + tolerance ->
  (forall t, In t tokens -> type t = word ->
             (length (value t) < fuel)%nat
             /\ forall c, In c (value t) -> measure [c] <= lowest + tolerance) ->
  processTokens measure metrics columnCount fuel tokens initialState = Some st ->
  currentLineWidth st <= widest + tolerance.
Proof.
  intros Hne Hrange Hnonneg Hwords Hrun.
  apply (processTokens_width measure metrics columnCount fuel lowest widest
           Hne Hrange Hnonneg tokens initialState st Hrun Hwords).
  exact Hnonneg.
Qed.

Lemma lineBuffer_width_bounded_witness :
  exists st,
    processTokens (tenPerChar 16 []) (sampleMetrics [100; 100] 16 16) 2 13
      [mkToken word (letters 97%N 4); mkToken space [32%N];
       mkToken word (letters 98%N 12)] initialState = Some st
    /\ currentLineWidth st <= 100 + tolerance.
Proof.
  eexists. split; [vm_compute; reflexivity|].
  apply (lineBuffer_width_bounded (tenPerChar 16 [])
           (sampleMetrics [100; 100] 16 16) 2 13 100 100
           [mkToken word (letters 97%N 4); mkToken space [32%N];
            mkToken word (letters 98%N 12)]).
  - discriminate.
  - repeat constructor; apply Qle_bool_iff; reflexivity.
  - apply Qle_bool_iff. reflexivity.
  - intros t [<- | [<- | [<- | []]]] Hw; try discriminate;
      (split; [simpl; lia | intros c _; apply Qle_bool_iff; reflexivity]).
  - vm_compute. reflexivity.
Defined.

(** ** More on the metrics *)






Lemma sumQ_nonneg (l : list Q) :
  Forall (fun v => 0 <= v) l -> 0 <= sumQ l.
Proof.
  induction 1 as [|x l Hx _ IH]; [unfold sumQ; simpl; lra|].
  rewrite sumQ_cons. lra.
Qed.



Lemma columnOffsets_length (total : nat) (gap : Q) (widths : list Q) :
  forall index offset,
    length (columnOffsets total gap index offset widths) = length widths.
Proof.
  induction widths as [|w widths IH]; intros index offset; simpl;
    [reflexivity | now rewrite IH].
Qed.


Lemma computeMetrics_offsets_eq (columns : Z) (mode : ColumnMode)
      (columnWidthsMm : list Q) (gapMm : Q) (margins : Margins)
      (fontSize lineSpacing : Q) :
  columnOffsetsPx (computeMetrics columns mode columnWidthsMm gapMm margins
                                  fontSize lineSpacing)
  = columnOffsets
      (length (columnWidthsPx (computeMetrics columns mode columnWidthsMm
                                 gapMm margins fontSize lineSpacing)))
      (gapPx (computeMetrics columns mode columnWidthsMm gapMm margins
                             fontSize lineSpacing))
      0 0
      (columnWidthsPx (computeMetrics columns mode columnWidthsMm gapMm
                                      margins fontSize lineSpacing)).
Proof.
  unfold computeMetrics.
  destruct (resolveWidths columns mode columnWidthsMm gapMm margins).
  reflexivity.
Qed.



(** ** The form around the engine *)

Lemma toFixed2_min (x : Q) : 1 <= x -> 1 <= toFixed2 x.
Proof.
  intros Hx. unfold toFixed2.
  assert (H : (100 <= Qfloor (x * 100 + (1 # 2)))%Z).
  { pose proof (Qfloor_Z 100) as H0.
    assert (H1 : inject_Z 100 <= x * 100 + (1 # 2))
      by (change (inject_Z 100) with 100; lra).
    apply Qfloor_resp_le in H1. lia. }
  unfold Qle. cbn [Qnum Qden]. lia.
Qed.

Lemma syncColumnWidths_length (availableMm : Q) (columns : Z) (prev : list Q) :
  (0 <= columns)%Z ->
  length (syncColumnWidths availableMm columns prev) = Z.to_nat columns.
Proof.
  intros Hc. unfold syncColumnWidths.
  destruct (Z.ltb_spec (Z.of_nat (length prev)) columns).
  - rewrite length_app, repeat_length. lia.
  - destruct (Z.ltb_spec columns (Z.of_nat (length prev))).
    + rewrite length_firstn. lia.
    + lia.
Qed.

(** X: the effect that follows a change of [columns] leaves exactly
    [columns] requested widths: the ones there were are kept, in place, as
    far as they go, the ones added are at least 1 mm, and running the
    effect again changes nothing. *)
Theorem syncColumnWidths_spec (availableMm : Q) (columns : Z)
        (prev : list Q) :
  (0 <= columns)%Z ->
  length (syncColumnWidths availableMm columns prev) = Z.to_nat columns
  /\ firstn (Nat.min (length prev) (Z.to_nat columns))
            (syncColumnWidths availableMm columns prev)
     = firstn (Nat.min (length prev) (Z.to_nat columns)) prev
  /\ Forall (fun value => 1 <= value)
            (skipn (length prev) (syncColumnWidths availableMm columns prev))
  /\ syncColumnWidths availableMm columns
       (syncColumnWidths availableMm columns prev)
     = syncColumnWidths availableMm columns prev.
Proof.
  intros Hc. split; [now apply syncColumnWidths_length|].
  split; [|split].
  - unfold syncColumnWidths.
    destruct (Z.ltb_spec (Z.of_nat (length prev)) columns).
    + rewrite firstn_app.
      replace (Nat.min (length prev) (Z.to_nat columns) - length prev)%nat
        with 0%nat by lia.
      simpl. apply app_nil_r.
    + destruct (Z.ltb_spec columns (Z.of_nat (length prev))); [|reflexivity].
      rewrite firstn_firstn. f_equal. lia.
  - unfold syncColumnWidths.
    destruct (Z.ltb_spec (Z.of_nat (length prev)) columns).
    + rewrite skipn_app, skipn_all, Nat.sub_diag. simpl.
      apply Forall_forall. intros v Hin. apply repeat_spec in Hin. subst v.
      apply toFixed2_min. apply Q.le_max_r.
    + destruct (Z.ltb_spec columns (Z.of_nat (length prev))).
      * rewrite skipn_all2; [constructor|]. rewrite length_firstn. lia.
      * rewrite skipn_all. constructor.
  - pose proof (syncColumnWidths_length availableMm columns prev Hc) as Hlen.
    unfold syncColumnWidths at 1.
    rewrite Hlen, Z2Nat.id, !Z.ltb_irrefl by lia. reflexivity.
Qed.

Lemma syncColumnWidths_spec_witness :
  length (syncColumnWidths 176 5 [22; 22; 22]) = Z.to_nat 5.
Proof.
  apply (syncColumnWidths_spec 176 5 [22; 22; 22]). lia.
Defined.

Lemma computeMetrics_custom_count (columns : Z) (columnWidthsMm : list Q)
      (gapMm : Q) (margins : Margins) (fontSize lineSpacing : Q) :
  (Z.to_nat (Z.max columns 1) <= length columnWidthsMm)%nat ->
  length (columnWidthsPx (computeMetrics columns custom columnWidthsMm gapMm
                                         margins fontSize lineSpacing))
  = Z.to_nat (Z.max columns 1).
Proof.
  intros Hlong.
  destruct (computeMetrics_widths columns custom columnWidthsMm gapMm margins
              fontSize lineSpacing) as [Hw _].
  rewrite Hw.
  destruct (Qlt_le_dec 0 (sumQ (requestedWidths (Z.max columns 1)
                                                columnWidthsMm)))
    as [Hlt | Hle].
  - rewrite (resolveWidths_custom_scaled _ _ _ _ Hlt). cbn [fst].
    rewrite length_map, requestedWidths_length. lia.
  - rewrite (resolveWidths_custom_fallback _ _ _ _ Hle). cbn [fst].
    apply repeat_length.
Qed.

Lemma doubles_computeMetrics_custom_count (columns : Z)
      (columnWidthsMm : list float) (gapMm : float)
      (margins : Doubles.Margins) (fontSize lineSpacing : float) :
  (Z.to_nat (Z.max columns 1) <= length columnWidthsMm)%nat ->
  length (Doubles.columnWidthsPx
            (Doubles.computeMetrics columns custom columnWidthsMm gapMm
                                    margins fontSize lineSpacing))
  = Z.to_nat (Z.max columns 1).
Proof.
  intros Hlong. unfold Doubles.computeMetrics, Doubles.resolveWidths.
  destruct (PrimFloat.leb _ _); cbn [Doubles.columnWidthsPx].
  - apply repeat_length.
  - unfold Doubles.requestedWidths.
    rewrite !length_map, length_firstn. lia.
Qed.

(** X: once the effect has run for the current number of columns (at
    least one), custom mode resolves exactly that many widths and
    offsets, whatever widths were requested before; on doubles too, a
    list of at least [columns] requested widths resolves exactly
    [columns] widths, whatever its sum comes to. *)
Theorem computeMetrics_after_sync (availableMm : Q) (columns : Z)
        (prev : list Q) (gapMm : Q) (margins : Margins)
        (fontSize lineSpacing : Q) :
  (1 <= columns)%Z ->
  (let m := computeMetrics columns custom
              (syncColumnWidths availableMm columns prev)
              gapMm margins fontSize lineSpacing in
   length (columnWidthsPx m) = Z.to_nat columns
   /\ length (columnOffsetsPx m) = Z.to_nat columns)
  /\ (forall widths gap marginsMm size spacing,
        (Z.to_nat columns <= length widths)%nat ->
        length (Doubles.columnWidthsPx
                  (Doubles.computeMetrics columns custom widths gap marginsMm
                                          size spacing))
        = Z.to_nat columns).
Proof.
  intros Hc. split.
  - intros m.
    pose proof (syncColumnWidths_length availableMm columns prev) as Hlen.
    assert (Hcount : length (columnWidthsPx m) = Z.to_nat columns).
    { unfold m. rewrite computeMetrics_custom_count; [f_equal; lia|].
      rewrite Hlen by lia. lia. }
    split; [exact Hcount|].
    unfold m. rewrite computeMetrics_offsets_eq, columnOffsets_length.
    exact Hcount.
  - intros widths gap marginsMm size spacing Hlong.
    rewrite doubles_computeMetrics_custom_count; [f_equal; lia|].
    replace (Z.max columns 1) with columns by lia. exact Hlong.
Qed.

Lemma computeMetrics_after_sync_witness :
  length (columnWidthsPx
            (computeMetrics 5 custom (syncColumnWidths 176 5 [22; 22; 22])
                            2 (mkMargins 10 10 10 10) 12 1))
  = Z.to_nat 5.
Proof.
  apply (computeMetrics_after_sync 176 5 [22; 22; 22] 2
           (mkMargins 10 10 10 10) 12 1).
  lia.
Defined.

(** X: while the tokens flow, the column being filled always has an index
    below the column count, so that with at least [columnCount] configured
    widths [getColumnWidth] returns the width at that index and its
    fallback to the last width is never taken. *)
Theorem getColumnWidth_in_range (measure : str -> Q)
        (metrics : LayoutMetrics) (columnCount : Z) (fuel : nat)
        (tokens : list Token) (st : FlowState) :
  (1 <= columnCount)%Z ->
  (Z.to_nat columnCount <= length (columnWidthsPx metrics))%nat ->
  processTokens measure metrics columnCount fuel tokens initialState = Some st ->
  (length (columns (currentPage st)) < Z.to_nat columnCount)%nat
  /\ nth_error (columnWidthsPx metrics) (length (columns (currentPage st)))
     = Some (getColumnWidth metrics st).
Proof.
  intros Hc Hlen Hrun.
  destruct (processTokens_count measure metrics columnCount fuel Hc tokens st
              Hrun) as [_ Hopen].
  split; [exact Hopen|].
  unfold getColumnWidth.
  destruct (nth_error _ _) eqn:E; [reflexivity|].
  apply nth_error_None in E. lia.
Qed.

Lemma getColumnWidth_in_range_witness :
  exists st,
    processTokens (tenPerChar 16 []) (sampleMetrics [100; 10] 16 16) 2 26
                  [mkToken word (letters 97%N 25)] initialState = Some st
    /\ nth_error (columnWidthsPx (sampleMetrics [100; 10] 16 16))
                 (length (columns (currentPage st)))
       = Some (getColumnWidth (sampleMetrics [100; 10] 16 16) st).
Proof.
  eexists. split; [vm_compute; reflexivity|].
  apply (getColumnWidth_in_range (tenPerChar 16 [])
           (sampleMetrics [100; 10] 16 16) 2 26
           [mkToken word (letters 97%N 25)]).
  - lia.
  - simpl. lia.
  - vm_compute. reflexivity.
Defined.

(** ** The start of a line *)

Lemma trimEnd_starts (raw : str) :
  startsWithInk raw -> startsWithInk (trimEnd raw).
Proof.
  destruct raw as [|c r]; [intros []|]. intros Hc.
  change (isSpace c = false) in Hc.
  rewrite trimEnd_cons. destruct (trimEnd r); [rewrite Hc|]; exact Hc.
Qed.

Lemma committed_startsClean (raw : str) :
  raw = [] \/ startsWithInk raw ->
  lineStartsClean (if isEmpty (trimEnd raw) then [NBSP] else trimEnd raw).
Proof.
  intros [-> | H]; [now left|].
  apply trimEnd_starts in H. destruct (trimEnd raw); [destruct H|].
  right. exact H.
Qed.

Lemma word_starts (v : str) : isWord v = true -> startsWithInk v.
Proof.
  unfold isWord. destruct v as [|c v]; [discriminate|]. simpl.
  destruct (isSpace c); [discriminate | reflexivity].
Qed.

Lemma app_starts (a b : str) :
  a = [] \/ startsWithInk a -> startsWithInk b -> startsWithInk (a ++ b).
Proof.
  intros [-> | Ha] Hb; [exact Hb|]. destruct a; [destruct Ha | exact Ha].
Qed.

Section LineStart.

Variable measure : str -> Q.
Variable metrics : LayoutMetrics.
Variable columnCount : Z.
Variable fuel : nat.

Lemma ensure_start (st : FlowState) :
  StartInv st ->
  StartInv (ensureColumnSpaceForNextLine metrics columnCount st).
Proof.
  unfold StartInv. now rewrite allLines_ensure, currentLine_ensure.
Qed.

Lemma commitLine_start (raw : str) (st : FlowState) :
  Forall lineStartsClean (allLines st) ->
  raw = [] \/ startsWithInk raw ->
  StartInv (commitLine metrics columnCount raw st).
Proof.
  intros Hlines Hraw. split; [|now left].
  rewrite allLines_commitLine. apply Forall_app. split; [exact Hlines|].
  constructor; [now apply committed_startsClean | constructor].
Qed.

Lemma commit_buffer_start (st : FlowState) :
  StartInv st -> StartInv (commitLine metrics columnCount (currentLine st) st).
Proof. intros [Hl Hc]. now apply commitLine_start. Qed.

Lemma chooseBest_positive (remaining : str) (cw : Q) (best : nat) :
  chooseBest measure fuel remaining cw = Some best -> (1 <= best)%nat.
Proof.
  unfold chooseBest. destruct (binarySearch _ _ _ _ _ _ _) as [b|];
    [|discriminate].
  cbn [obind]. intros H. injection H as <-.
  destruct (Nat.eqb_spec b 0); lia.
Qed.

Lemma splitLoop_start (n : nat) :
  forall remaining st st',
    splitLoop measure metrics columnCount fuel n remaining st = Some st' ->
    forallb (fun c => negb (isSpace c)) remaining = true ->
    StartInv st -> StartInv st'.
Proof.
  induction n as [|n IH]; intros remaining st st'; [discriminate|].
  cbn [splitLoop]. destruct (0 <? length remaining)%nat eqn:El.
  - destruct (chooseBest measure fuel remaining (getColumnWidth metrics st))
      as [best|] eqn:Eb; [|discriminate].
    cbn [obind]. intros Hrun Hns Hst.
    pose proof (chooseBest_positive _ _ _ Eb) as Hpos.
    assert (Hseg : startsWithInk (firstn best remaining)).
    { apply word_starts. unfold isWord.
      rewrite (forallb_firstn _ _ _ Hns), andb_true_r.
      destruct remaining; [discriminate|]. destruct best; [lia | reflexivity]. }
    apply ensure_start in Hst. destruct Hst as [Hlines _].
    destruct (best =? length remaining)%nat.
    + destruct n as [|n]; [discriminate|]. cbn [splitLoop length] in Hrun.
      simpl Nat.ltb in Hrun. injection Hrun as <-.
      split; [exact Hlines | now right].
    + apply (IH _ _ _ Hrun); [now apply forallb_skipn|].
      apply commitLine_start; [exact Hlines | now right].
  - intros H _ Hst. now injection H as <-.
Qed.

Lemma processToken_start (token : Token) (st st' : FlowState) :
  processToken measure metrics columnCount fuel token st = Some st' ->
  tokenWellFormed token = true ->
  StartInv st -> StartInv st'.
Proof.
  unfold processToken, tokenWellFormed. intros H Hwf Hst.
  destruct (type token).
  - destruct (negb (isEmpty (currentLine st))); injection H as <-.
    + now apply commit_buffer_start.
    + apply commitLine_start; [apply Hst | now left].
  - destruct (isEmpty (currentLine st)) eqn:E; [now injection H as <-|].
    destruct (Qle_bool _ _); injection H as <-.
    + destruct Hst as [Hl Hc]. split; [exact Hl|]. right.
      apply isEmpty_false in E. destruct Hc as [Hc | Hc]; [congruence|].
      destruct (currentLine st); [destruct Hc | exact Hc].
    + now apply commit_buffer_start.
  - set (st1 := if Qlt_bool 0 (currentLineWidth st) && _ then _ else st) in H.
    assert (H1 : StartInv st1)
      by (subst st1; destruct (_ && _);
          [now apply commit_buffer_start | exact Hst]).
    destruct (Qle_bool (measure (value token)) _).
    + injection H as <-.
      assert (H2 : StartInv (if isEmpty (currentLine st1)
                             then ensureColumnSpaceForNextLine
                                    metrics columnCount st1
                             else st1))
        by (destruct (isEmpty _); [now apply ensure_start | exact H1]).
      destruct H2 as [Hl Hc]. split; [exact Hl|]. right.
      apply app_starts; [exact Hc | now apply word_starts].
    + unfold splitLongWord in H. apply (splitLoop_start _ _ _ _ H).
      * unfold isWord in Hwf. apply andb_true_iff in Hwf. apply Hwf.
      * destruct (negb (isEmpty (currentLine st1)));
          [now apply commit_buffer_start | exact H1].
Qed.

Lemma processTokens_start (tokens : list Token) :
  forall st st',
    processTokens measure metrics columnCount fuel tokens st = Some st' ->
    Forall (fun t => tokenWellFormed t = true) tokens ->
    StartInv st -> StartInv st'.
Proof.
  induction tokens as [|t tokens IH]; intros st st' H Hwf Hst; simpl in H.
  - now injection H as <-.
  - destruct (processToken measure metrics columnCount fuel t st)
      as [st1|] eqn:E; [|discriminate].
    simpl in H. inversion Hwf as [|? ? Ht Hts]; subst.
    apply (IH _ _ H Hts). apply (processToken_start _ _ _ E Ht Hst).
Qed.

End LineStart.

(** X: no line of the layout starts with white space: spaces are dropped
    at the start of a line, so every line begins with a character of a
    word, unless it is the placeholder of an empty line. *)
Theorem layoutText_lines_start_clean (backend : Backend)
        (config : LayoutConfig.t) (metrics : LayoutMetrics) :
  exists pgs,
    layoutText backend config metrics = Some pgs
    /\ Forall lineStartsClean (layoutLines pgs).
Proof.
  assert (Hempty : forall n, Forall lineStartsClean
                               (layoutLines [createEmptyPage n]))
    by (intros n; rewrite layoutLines_createEmptyPage; constructor).
  destruct backend as [| |measureText].
  - eexists. split; [reflexivity | apply Hempty].
  - unfold layoutText, layoutTextFuel.
    destruct (length (columnWidthsPx metrics) =? 0)%nat;
      (eexists; split; [reflexivity | apply Hempty]).
  - destruct (columnWidthsPx metrics) as [|w ws] eqn:Ew.
    + unfold layoutText, layoutTextFuel. rewrite Ew.
      eexists. split; [reflexivity | apply Hempty].
    + assert (Hne : columnWidthsPx metrics <> [])
        by (rewrite Ew; discriminate).
      destruct (layoutText_canvas_run measureText config metrics Hne)
        as (toks & st & _ & _ & Hwf & Hrun & Hp).
      eexists. split; [exact Hp|]. rewrite finishLayout_lines.
      assert (Hst : StartInv st).
      { apply (processTokens_start _ _ _ _ _ _ _ Hrun Hwf).
        split; [constructor | now left]. }
      destruct (negb _); [|apply Hst].
      apply (commit_buffer_start metrics (columnCountOf config) st Hst).
Qed.

(** * The engine on doubles *)

(** ** Termination *)

Section DoublesLoops.

Variable measure : str -> float.
Variable metrics : Doubles.LayoutMetrics.
Variable columnCount : Z.

Lemma doubles_binarySearch_total (n : nat) (remaining : str) (cw : float) :
  forall low high best,
    (1 <= low)%nat -> (high + 1 - low < n)%nat ->
    exists b,
      Doubles.binarySearch measure n remaining cw low high best = Some b
      /\ (b = best \/ (low <= b <= high)%nat).
Proof.
  induction n as [|n IH]; intros low high best Hlow Hn; [lia|].
  cbn [Doubles.binarySearch]. destruct (low <=? high)%nat eqn:Elh.
  - apply Nat.leb_le in Elh.
    assert (Hmid : (low <= (low + high) / 2 <= high)%nat).
    { split; [apply Nat.div_le_lower_bound | apply Nat.Div0.div_le_upper_bound];
        lia. }
    set (mid := ((low + high) / 2)%nat) in *.
    destruct (PrimFloat.leb _ _).
    + destruct (IH (mid + 1)%nat high mid) as (b & Hb & Hcase); [lia | lia |].
      exists b. split; [exact Hb|]. right. lia.
    + destruct (IH low (mid - 1)%nat best) as (b & Hb & Hcase); [lia | lia |].
      exists b. split; [exact Hb|]. destruct Hcase; [now left | right; lia].
  - exists best. split; [reflexivity | now left].
Qed.

Lemma doubles_chooseBest_range (fuel : nat) (remaining : str) (cw : float) :
  (length remaining < fuel)%nat ->
  exists best,
    Doubles.chooseBest measure fuel remaining cw = Some best
    /\ (1 <= best)%nat
    /\ (remaining <> [] -> (best <= length remaining)%nat).
Proof.
  intros Hf. unfold Doubles.chooseBest.
  destruct (doubles_binarySearch_total fuel remaining cw 1 (length remaining) 0)
    as (b & Hb & Hcase); [lia | lia |].
  rewrite Hb. cbn [obind]. eexists. split; [reflexivity|].
  destruct (Nat.eqb_spec b 0) as [-> | Hnz].
  - split; [lia|]. intros Hne. destruct remaining; [congruence | simpl; lia].
  - split; [lia|]. intros _. destruct Hcase; lia.
Qed.

Lemma doubles_splitLoop_total (fuel n : nat) :
  forall remaining st,
    (length remaining < fuel)%nat -> (length remaining < n)%nat ->
    exists st',
      Doubles.splitLoop measure metrics columnCount fuel n remaining st
      = Some st'.
Proof.
  induction n as [|n IH]; intros remaining st Hf Hn; [lia|].
  cbn [Doubles.splitLoop].
  destruct (0 <? length remaining)%nat eqn:El; [|eauto].
  apply Nat.ltb_lt in El.
  destruct (doubles_chooseBest_range fuel remaining
              (Doubles.getColumnWidth metrics st) Hf)
    as (best & Hb & H1 & Hle).
  rewrite Hb. cbn [obind].
  assert (Hne : remaining <> [])
    by (destruct remaining; simpl in El; [lia | discriminate]).
  destruct (best =? length remaining)%nat.
  - destruct n; [lia|]. simpl. eauto.
  - apply IH; pose proof (skipn_shorter _ _ H1 Hne); lia.
Qed.

Lemma doubles_processToken_total (fuel : nat) (token : Token)
      (st : Doubles.FlowState) :
  (length (value token) < fuel)%nat ->
  exists st',
    Doubles.processToken measure metrics columnCount fuel token st = Some st'.
Proof.
  intros Hf. unfold Doubles.processToken.
  destruct (type token).
  - destruct (negb (isEmpty (Doubles.currentLine st))); eauto.
  - destruct (isEmpty (Doubles.currentLine st)); eauto.
    destruct (PrimFloat.leb _ _); eauto.
  - destruct (PrimFloat.leb (measure (value token)) _); eauto.
    apply doubles_splitLoop_total; assumption.
Qed.

Lemma doubles_processTokens_total (fuel : nat) (tokens : list Token) :
  forall st,
    (forall t, In t tokens -> (length (value t) < fuel)%nat) ->
    exists st',
      Doubles.processTokens measure metrics columnCount fuel tokens st
      = Some st'.
Proof.
  induction tokens as [|t tokens IH]; intros st Hall; simpl; [eauto|].
  destruct (doubles_processToken_total fuel t st) as [st1 H1];
    [apply Hall; now left|].
  rewrite H1. simpl. apply IH. intros x Hx. apply Hall. now right.
Qed.

End DoublesLoops.

Lemma doubles_layoutText_total (backend : Doubles.Backend)
      (config : Doubles.LayoutConfig) (metrics : Doubles.LayoutMetrics) :
  exists pgs, Doubles.layoutText backend config metrics = Some pgs.
Proof.
  unfold Doubles.layoutText, Doubles.layoutTextFuel.
  destruct backend as [| |measureText]; eauto;
    destruct (length (Doubles.columnWidthsPx metrics) =? 0)%nat; eauto.
  destruct (tokenizeFuel_total (S (length (Doubles.text config)))
              (Doubles.text config)) as (toks & Ht & Hv); [lia|].
  rewrite Ht. cbn [obind]. unfold Doubles.flow.
  destruct (doubles_processTokens_total
              (measureText (Doubles.fontSizePx metrics)
                           (Doubles.fontFamily config))
              metrics (Doubles.columnCountOf config)
              (S (length (Doubles.text config))) toks Doubles.initialState)
    as [st Hst].
  - intros t Hin. pose proof (token_value_length toks t Hin) as Hl.
    rewrite Hv in Hl. pose proof (normalize_length (Doubles.text config)).
    lia.
  - rewrite Hst. cbn [obind]. eauto.
Qed.

(** ** Column heights *)

Section DoublesPreservation.

Variable measure : str -> float.
Variable metrics : Doubles.LayoutMetrics.
Variable columnCount : Z.
Variable fuel : nat.
Variable P : Doubles.FlowState -> Prop.

Hypothesis P_ensure :
  forall st,
    P st -> P (Doubles.ensureColumnSpaceForNextLine metrics columnCount st).
Hypothesis P_commit :
  forall raw st, P st -> P (Doubles.commitLine metrics columnCount raw st).
Hypothesis P_buffer :
  forall st line width,
    P st ->
    P (Doubles.mkState (Doubles.pages st) (Doubles.currentPage st)
                       (Doubles.currentColumnLines st) (Doubles.cursorY st)
                       line width).

Lemma doubles_splitLoop_preserves (n : nat) :
  forall remaining st st',
    Doubles.splitLoop measure metrics columnCount fuel n remaining st
    = Some st' ->
    P st -> P st'.
Proof.
  induction n as [|n IH]; intros remaining st st'; [discriminate|].
  cbn [Doubles.splitLoop]. destruct (0 <? length remaining)%nat.
  - destruct (Doubles.chooseBest measure fuel remaining
                (Doubles.getColumnWidth metrics st)) as [best|];
      [|discriminate].
    cbn [obind]. destruct (best =? length remaining)%nat; intros H HP;
      apply (IH _ _ _ H); auto.
  - intros H HP. injection H as <-. exact HP.
Qed.

Lemma doubles_processToken_preserves (token : Token)
      (st st' : Doubles.FlowState) :
  Doubles.processToken measure metrics columnCount fuel token st = Some st' ->
  P st -> P st'.
Proof.
  unfold Doubles.processToken. intros H HP. destruct (type token).
  - destruct (negb (isEmpty (Doubles.currentLine st))); injection H as <-;
      auto.
  - destruct (isEmpty (Doubles.currentLine st)); [injection H as <-; auto|].
    destruct (PrimFloat.leb _ _); injection H as <-; auto.
  - set (st1 := if PrimFloat.ltb 0 (Doubles.currentLineWidth st) && _
                then _ else st) in H.
    assert (H1 : P st1) by (subst st1; destruct (_ && _); auto).
    destruct (PrimFloat.leb (measure (value token)) _).
    + injection H as <-. apply P_buffer.
      destruct (isEmpty (Doubles.currentLine st1)); auto.
    + apply (doubles_splitLoop_preserves _ _ _ _ H).
      destruct (negb (isEmpty (Doubles.currentLine st1))); auto.
Qed.

Lemma doubles_processTokens_preserves (tokens : list Token) :
  forall st st',
    Doubles.processTokens measure metrics columnCount fuel tokens st
    = Some st' ->
    P st -> P st'.
Proof.
  induction tokens as [|t tokens IH]; intros st st' H HP; simpl in H.
  - injection H as <-. exact HP.
  - destruct (Doubles.processToken measure metrics columnCount fuel t st)
      as [st1|] eqn:E; [|discriminate].
    simpl in H. apply (IH _ _ H).
    apply (doubles_processToken_preserves _ _ _ E HP).
Qed.

End DoublesPreservation.

Section DoublesHeights.

Variable measure : str -> float.
Variable metrics : Doubles.LayoutMetrics.
Variable columnCount : Z.
Variable fuel : nat.

Lemma doubles_finishColumn_height (st : Doubles.FlowState) :
  Doubles.HeightInv metrics st ->
  Doubles.HeightInv metrics (Doubles.finishColumn columnCount st).
Proof.
  intros [Hcur Hc Hp Hps]. unfold Doubles.finishColumn.
  assert (Hcols : Forall (Doubles.columnBounded metrics)
                    (columns (Doubles.currentPage st)
                       ++ [mkColumn (Doubles.currentColumnLines st)]))
    by (apply Forall_app; split;
        [exact Hp | constructor; [exact Hc | constructor]]).
  destruct (_ =? columnCount)%Z; constructor; simpl;
    try reflexivity; try (left; simpl; lia);
    try constructor; try assumption.
  apply Forall_app. split; [exact Hps|]. constructor; [exact Hcols | constructor].
Qed.

Lemma doubles_ensure_height (st : Doubles.FlowState) :
  Doubles.HeightInv metrics st ->
  Doubles.HeightInv metrics
    (Doubles.ensureColumnSpaceForNextLine metrics columnCount st).
Proof.
  intros H. unfold Doubles.ensureColumnSpaceForNextLine.
  destruct (PrimFloat.leb _ _);
    [exact H | now apply doubles_finishColumn_height].
Qed.

Lemma doubles_buffer_height (st : Doubles.FlowState) (line : str)
      (width : float) :
  Doubles.HeightInv metrics st ->
  Doubles.HeightInv metrics
    (Doubles.mkState (Doubles.pages st) (Doubles.currentPage st)
                     (Doubles.currentColumnLines st) (Doubles.cursorY st)
                     line width).
Proof. intros [Hcur Hc Hp Hps]. constructor; assumption. Qed.

Lemma doubles_accumulated_snoc {A : Type} (lineHeight : float) (l : list A)
      (x : A) :
  Doubles.accumulated lineHeight (length (l ++ [x]))
  = PrimFloat.add (Doubles.accumulated lineHeight (length l)) lineHeight.
Proof. rewrite length_app, Nat.add_1_r. reflexivity. Qed.

(** A line is pushed where the sum the test has just computed is within
    the height, and that sum is the new cursor; or it is the first line of
    a column that [finishColumn] has opened. *)
Lemma doubles_commitLine_height (raw : str) (st : Doubles.FlowState) :
  Doubles.HeightInv metrics st ->
  Doubles.HeightInv metrics (Doubles.commitLine metrics columnCount raw st).
Proof.
  intros H. unfold Doubles.commitLine, Doubles.ensureColumnSpaceForNextLine.
  destruct (PrimFloat.leb
              (PrimFloat.add (Doubles.cursorY st) (Doubles.lineHeightPx metrics))
              (PrimFloat.add (Doubles.columnHeightPx metrics) Doubles.tolerance))
    eqn:E.
  - destruct H as [Hcur Hc Hp Hps].
    constructor; cbn [Doubles.cursorY Doubles.currentColumnLines
                      Doubles.currentPage Doubles.pages]; try assumption.
    + rewrite doubles_accumulated_snoc, Hcur. reflexivity.
    + right. cbn [lines]. rewrite doubles_accumulated_snoc, <- Hcur. exact E.
  - apply doubles_finishColumn_height in H. destruct H as [Hcur Hc Hp Hps].
    assert (Hnil : Doubles.currentColumnLines
                     (Doubles.finishColumn columnCount st) = [])
      by (unfold Doubles.finishColumn; destruct (_ =? columnCount)%Z;
          reflexivity).
    constructor; cbn [Doubles.cursorY Doubles.currentColumnLines
                      Doubles.currentPage Doubles.pages]; try assumption.
    + rewrite doubles_accumulated_snoc, Hcur. reflexivity.
    + left. cbn [lines]. rewrite Hnil. simpl. lia.
Qed.

Lemma doubles_initialState_height :
  Doubles.HeightInv metrics Doubles.initialState.
Proof.
  constructor; simpl.
  - reflexivity.
  - left. simpl. lia.
  - constructor.
  - constructor.
Qed.

Lemma doubles_emptyColumn_bounded :
  Doubles.columnBounded metrics (mkColumn []).
Proof. left. simpl. lia. Qed.

Lemma doubles_padLoop_bounded (missing : nat) :
  forall cols,
    Forall (Doubles.columnBounded metrics) cols ->
    Forall (Doubles.columnBounded metrics) (Doubles.padLoop missing cols).
Proof.
  induction missing as [|m IH]; intros cols H; simpl; [exact H|].
  apply IH. apply Forall_app. split; [exact H|].
  constructor; [apply doubles_emptyColumn_bounded | constructor].
Qed.

Lemma doubles_createEmptyPage_bounded (n : Z) :
  Forall (Doubles.columnBounded metrics) (columns (createEmptyPage n)).
Proof.
  unfold createEmptyPage. simpl. apply Forall_forall.
  intros c Hc. apply repeat_spec in Hc. subst.
  apply doubles_emptyColumn_bounded.
Qed.

Lemma doubles_finishLayout_height (st : Doubles.FlowState) :
  Doubles.HeightInv metrics st ->
  everyColumn (Doubles.columnBounded metrics)
              (Doubles.finishLayout metrics columnCount st).
Proof.
  intros H. unfold Doubles.finishLayout.
  set (st1 := if negb (isEmpty (Doubles.currentLine st)) then _ else st).
  assert (H1 : Doubles.HeightInv metrics st1)
    by (subst st1; destruct (negb _);
        [now apply doubles_commitLine_height | exact H]).
  destruct H1 as [Hcur Hc Hp Hps].
  match goal with
  | |- context [if (length ?l =? 0)%nat then _ else _] =>
      assert (Hl : everyColumn (Doubles.columnBounded metrics) l)
  end.
  { destruct (_ || _); [|exact Hps].
    apply Forall_app. split; [exact Hps|]. constructor; [|constructor].
    simpl. apply doubles_padLoop_bounded. apply Forall_app.
    split; [exact Hp | constructor; [exact Hc | constructor]]. }
  destruct (length _ =? 0)%nat; [|exact Hl].
  constructor; [apply doubles_createEmptyPage_bounded | constructor].
Qed.

End DoublesHeights.

(** C1, as the code has it, on doubles: in every column of every page
    [layoutText] returns, the cursor the code has accumulated for the
    column ([lineHeightPx] added once for each line) is at most
    [columnHeightPx + 0.1], or the column holds at most one line.  No
    assumption is made on the text or the metrics. *)
Theorem doubles_layoutText_no_overflow (backend : Doubles.Backend)
        (config : Doubles.LayoutConfig) (metrics : Doubles.LayoutMetrics) :
  exists pgs,
    Doubles.layoutText backend config metrics = Some pgs
    /\ everyColumn (Doubles.columnBounded metrics) pgs.
Proof.
  destruct (doubles_layoutText_total backend config metrics) as [pgs Hp].
  exists pgs. split; [exact Hp|].
  unfold Doubles.layoutText, Doubles.layoutTextFuel in Hp.
  assert (Hempty : forall n, everyColumn (Doubles.columnBounded metrics)
                               [createEmptyPage n])
    by (intros n; constructor;
        [apply doubles_createEmptyPage_bounded | constructor]).
  destruct backend as [| |measureText].
  - injection Hp as <-. apply Hempty.
  - destruct (length (Doubles.columnWidthsPx metrics) =? 0)%nat;
      injection Hp as <-; apply Hempty.
  - destruct (length (Doubles.columnWidthsPx metrics) =? 0)%nat;
      [injection Hp as <-; apply Hempty|].
    destruct (tokenizeFuel _ _) as [toks|]; [|discriminate].
    cbn [obind] in Hp. unfold Doubles.flow in Hp.
    destruct (Doubles.processTokens _ _ _ _ toks Doubles.initialState)
      as [st|] eqn:Es; [|discriminate].
    injection Hp as <-. apply doubles_finishLayout_height.
    apply (doubles_processTokens_preserves _ metrics
             (Doubles.columnCountOf config) _ (Doubles.HeightInv metrics)
             (doubles_ensure_height metrics (Doubles.columnCountOf config))
             (fun raw s => doubles_commitLine_height metrics
                             (Doubles.columnCountOf config) raw s)
             (doubles_buffer_height metrics) _ _ _ Es).
    apply doubles_initialState_height.
Qed.

(** C1 as stated fails on the code in two ways.  By rounding: with the
    metrics [computeMetrics] gives for a top margin of 38.10645833333338mm,
    12pt and a line spacing of 1.4, the first column takes 42 lines, since
    the accumulated cursor is within the height, yet 42 times the line
    height is above [columnHeightPx + 0.1].  And by the whole line: when a
    line is higher than the column, the line is laid out all the same. *)
Lemma doubles_layoutText_overflow_counterexample :
  (exists first second,
      Doubles.layoutText (Doubles.Canvas Doubles.tenPerChar)
                         Doubles.tieConfig Doubles.tieMetrics
      = Some [mkPage [first; second]]
      /\ length (lines first) = 42%nat
      /\ Doubles.columnFits Doubles.tieMetrics first = false)
  /\ (exists column,
        Doubles.layoutText (Doubles.Canvas Doubles.tenPerChar)
                           Doubles.tallLineConfig Doubles.tallLineMetrics
        = Some [mkPage [mkColumn []]; mkPage [mkColumn []]; mkPage [column]]
        /\ lines column = [[97%N]]
        /\ Doubles.columnFits Doubles.tallLineMetrics column = false).
Proof.
  split.
  - eexists. eexists. split; [vm_compute; reflexivity|].
    split; vm_compute; reflexivity.
  - eexists. split; [vm_compute; reflexivity|].
    split; vm_compute; reflexivity.
Qed.

(** ** The widths of custom mode *)

(** C5 fails on the code where the available width in millimetres is
    clamped and the one in pixels is not.  With twelve columns, a gap of
    17.2mm and margins of 10mm, 0.8mm are left: [availableWidthMm] is
    raised to 1mm, [availableWidthPx] stays at 3.02px, and the custom
    widths, scaled by 1/120 to fill 1mm, add up to 3.78px, more than the
    available width and its tolerance; the equal widths for the same
    geometry add up to the available width. *)
Theorem doubles_computeMetrics_custom_overfill :
  Doubles.narrowAvailableMm = 1%float
  /\ PrimFloat.ltb 1 Doubles.narrowAvailablePx = true
  /\ Doubles.customScale Doubles.narrowCustom = PrimFloat.div 1 120
  /\ PrimFloat.ltb
       (PrimFloat.add Doubles.narrowAvailablePx Doubles.tolerance)
       (Doubles.sum (Doubles.columnWidthsPx Doubles.narrowCustom)) = true
  /\ Doubles.sum (Doubles.columnWidthsPx Doubles.narrowEqual)
     = Doubles.narrowAvailablePx.
Proof. repeat split; vm_compute; reflexivity. Qed.

(** Requested widths whose sum overflows resolve to widths of 0. *)
Example doubles_computeMetrics_overflow :
  Doubles.columnWidthsPx Doubles.hugeCustom = [0%float; 0%float]
  /\ Doubles.customScale Doubles.hugeCustom = 0%float.
Proof. split; vm_compute; reflexivity. Qed.

(** ** The order of doubles *)

Lemma SFcompare_antisym (x y : spec_float) :
  SFcompare y x = option_map CompOpp (SFcompare x y).
Proof.
  destruct x as [sx|sx| |sx mx ex], y as [sy|sy| |sy my ey]; cbn;
    try reflexivity;
    try (destruct sx; reflexivity); try (destruct sy; reflexivity);
    try (destruct sx, sy; reflexivity).
  f_equal. destruct sx, sy; try reflexivity.
  - rewrite (Z.compare_antisym ey ex).
    destruct (ey ?= ex)%Z; cbn; try reflexivity.
    rewrite (Pos.compare_cont_antisym mx my Eq). reflexivity.
  - rewrite (Z.compare_antisym ey ex).
    destruct (ey ?= ex)%Z; cbn; try reflexivity.
    rewrite (Pos.compare_cont_antisym mx my Eq). cbn. reflexivity.
Qed.

Lemma SFcompare_refl (x : spec_float) :
  x <> S754_nan -> SFcompare x x = Some Eq.
Proof.
  destruct x as [s|s| |s m e]; cbn; intros Hx; try congruence.
  - destruct s; reflexivity.
  - rewrite Z.compare_refl.
    change (Pos.compare_cont Eq m m) with (Pos.compare m m).
    rewrite Pos.compare_refl. destruct s; reflexivity.
Qed.

Lemma is_nan_false (a : float) :
  PrimFloat.is_nan a = false <-> Prim2SF a <> S754_nan.
Proof.
  unfold PrimFloat.is_nan. rewrite FloatAxioms.eqb_spec. unfold SFeqb.
  split.
  - intros H E. rewrite E in H. cbn in H. discriminate.
  - intros H. rewrite SFcompare_refl by exact H. reflexivity.
Qed.

Lemma float_leb_not_nan (a b : float) :
  PrimFloat.leb a b = true ->
  PrimFloat.is_nan a = false /\ PrimFloat.is_nan b = false.
Proof.
  rewrite leb_spec. unfold SFleb. intros H.
  split; apply is_nan_false; intros E; rewrite E in H.
  - cbn in H. discriminate.
  - destruct (Prim2SF a); cbn in H; discriminate.
Qed.

Lemma float_ltb_leb (a b : float) :
  PrimFloat.ltb a b = true -> PrimFloat.leb a b = true.
Proof.
  rewrite ltb_spec, leb_spec. unfold SFltb, SFleb.
  destruct (SFcompare _ _) as [[]|]; congruence.
Qed.

Lemma float_not_ltb_leb (a b : float) :
  PrimFloat.is_nan a = false -> PrimFloat.is_nan b = false ->
  PrimFloat.ltb a b = false -> PrimFloat.leb b a = true.
Proof.
  intros Ha Hb. apply is_nan_false in Ha, Hb.
  rewrite ltb_spec, leb_spec. unfold SFltb, SFleb.
  rewrite (SFcompare_antisym (Prim2SF a) (Prim2SF b)).
  destruct (SFcompare (Prim2SF a) (Prim2SF b)) as [[]|] eqn:E; cbn;
    try congruence.
  destruct (Prim2SF a), (Prim2SF b); cbn in E; congruence.
Qed.

Lemma float_leb_not_ltb (a b : float) :
  PrimFloat.leb a b = true -> PrimFloat.ltb b a = false.
Proof.
  rewrite ltb_spec, leb_spec. unfold SFltb, SFleb.
  rewrite (SFcompare_antisym (Prim2SF a) (Prim2SF b)).
  destruct (SFcompare (Prim2SF a) (Prim2SF b)) as [[]|]; cbn; congruence.
Qed.

Lemma float_leb_refl (a : float) :
  PrimFloat.is_nan a = false -> PrimFloat.leb a a = true.
Proof.
  intros Ha. apply is_nan_false in Ha.
  rewrite leb_spec. unfold SFleb. rewrite SFcompare_refl by exact Ha.
  reflexivity.
Qed.

(** [Math.max] on numbers: one of the two, and at least both. *)
Lemma fmax_spec (a b : float) :
  PrimFloat.is_nan a = false -> PrimFloat.is_nan b = false ->
  (Doubles.fmax a b = a \/ Doubles.fmax a b = b)
  /\ PrimFloat.leb a (Doubles.fmax a b) = true
  /\ PrimFloat.leb b (Doubles.fmax a b) = true.
Proof.
  intros Ha Hb. unfold Doubles.fmax. rewrite Ha, Hb. cbn [orb].
  destruct (PrimFloat.ltb a b) eqn:Hab.
  - split; [right; reflexivity|].
    split; [apply float_ltb_leb; exact Hab | apply float_leb_refl; exact Hb].
  - destruct (PrimFloat.ltb b a) eqn:Hba.
    + split; [left; reflexivity|].
      split; [apply float_leb_refl; exact Ha | apply float_ltb_leb; exact Hba].
    + pose proof (float_not_ltb_leb a b Ha Hb Hab) as H1.
      pose proof (float_not_ltb_leb b a Hb Ha Hba) as H2.
      destruct (classify a);
        (split; [first [left; reflexivity | right; reflexivity]|]);
        split; first [apply float_leb_refl; assumption | assumption].
Qed.

Lemma fmin_spec (a b : float) :
  PrimFloat.is_nan a = false -> PrimFloat.is_nan b = false ->
  (Doubles.fmin a b = a \/ Doubles.fmin a b = b)
  /\ PrimFloat.leb (Doubles.fmin a b) a = true
  /\ PrimFloat.leb (Doubles.fmin a b) b = true.
Proof.
  intros Ha Hb. unfold Doubles.fmin. rewrite Ha, Hb. cbn [orb].
  destruct (PrimFloat.ltb a b) eqn:Hab.
  - split; [left; reflexivity|].
    split; [apply float_leb_refl; exact Ha | apply float_ltb_leb; exact Hab].
  - destruct (PrimFloat.ltb b a) eqn:Hba.
    + split; [right; reflexivity|].
      split; [apply float_ltb_leb; exact Hba | apply float_leb_refl; exact Hb].
    + pose proof (float_not_ltb_leb a b Ha Hb Hab) as H1.
      pose proof (float_not_ltb_leb b a Hb Ha Hba) as H2.
      destruct (classify b);
        (split; [first [left; reflexivity | right; reflexivity]|]);
        split; first [apply float_leb_refl; assumption | assumption].
Qed.



Lemma classify_NZero (a : float) :
  classify a = NZero -> Prim2SF a = S754_zero true.
Proof.
  rewrite classify_spec. unfold SF64classify, SFclassify.
  destruct (Prim2SF a) as [s|s| |s m e]; try destruct s; try discriminate;
    try reflexivity;
    destruct (Z.eqb _ _); discriminate.
Qed.

Lemma fmax_kept (v b : float) :
  PrimFloat.ltb 0 b = true -> PrimFloat.leb b v = true ->
  Doubles.fmax v b = v.
Proof.
  intros Hpos Hle. destruct (float_leb_not_nan _ _ Hle) as [Hb Hv].
  unfold Doubles.fmax. rewrite Hv, Hb. cbn [orb].
  rewrite (float_leb_not_ltb _ _ Hle).
  destruct (PrimFloat.ltb b v); [reflexivity|].
  destruct (classify v) eqn:Hc; try reflexivity.
  exfalso. apply classify_NZero in Hc.
  rewrite leb_spec, Hc in Hle. rewrite ltb_spec in Hpos.
  change (Prim2SF 0) with (S754_zero false) in Hpos.
  unfold SFltb, SFleb in *.
  destruct (Prim2SF b) as [s|s| |s m e]; try destruct s; cbn in *;
    discriminate.
Qed.

Lemma fmin_kept (v b : float) :
  classify b = PNormal -> PrimFloat.leb v b = true ->
  Doubles.fmin v b = v.
Proof.
  intros Hc Hle. destruct (float_leb_not_nan _ _ Hle) as [Hv Hb].
  unfold Doubles.fmin. rewrite Hv, Hb. cbn [orb].
  rewrite (float_leb_not_ltb _ _ Hle), Hc.
  destruct (PrimFloat.ltb v b); reflexivity.
Qed.

Lemma onColumnsChange_range (value columns : float) :
  PrimFloat.is_nan value = false ->
  Doubles.inRange (Doubles.onColumnsChange value columns).
Proof.
  intros Hv. unfold Doubles.onColumnsChange, Doubles.inRange. rewrite Hv.
  assert (H1 : PrimFloat.is_nan Doubles.MIN_COLUMNS = false) by reflexivity.
  assert (H12 : PrimFloat.is_nan Doubles.MAX_COLUMNS = false) by reflexivity.
  destruct (fmax_spec value Doubles.MIN_COLUMNS Hv H1) as (_ & _ & Hlow).
  destruct (float_leb_not_nan _ _ Hlow) as [_ Hu].
  destruct (fmin_spec _ Doubles.MAX_COLUMNS Hu H12) as ([E|E] & _ & Hhigh).
  - split; [rewrite E; exact Hlow | exact Hhigh].
  - split; [rewrite E; reflexivity | exact Hhigh].
Qed.

Lemma onColumnsChange_kept (value columns : float) :
  Doubles.inRange value -> Doubles.onColumnsChange value columns = value.
Proof.
  intros [Hlow Hhigh]. destruct (float_leb_not_nan _ _ Hlow) as [_ Hv].
  unfold Doubles.onColumnsChange. rewrite Hv.
  rewrite (fmax_kept value Doubles.MIN_COLUMNS); [|reflexivity|exact Hlow].
  apply fmin_kept; [reflexivity | exact Hhigh].
Qed.

Lemma columnsAfter_range_from (events : list float) (start : float) :
  Doubles.inRange start ->
  Doubles.inRange (fold_left (fun columns value => Doubles.onColumnsChange value columns)
                     events start).
Proof.
  revert start. induction events as [|value rest IH]; intros start Hs;
    cbn [fold_left]; [exact Hs|].
  apply IH. unfold Doubles.onColumnsChange at 1.
  destruct (PrimFloat.is_nan value) eqn:Hv; [exact Hs|].
  pose proof (onColumnsChange_range value start Hv) as H.
  unfold Doubles.onColumnsChange in H. rewrite Hv in H. exact H.
Qed.




(** ** Equal mode and the heights, on doubles *)



(** ** The columns input *)

(** X: the handler of the columns input ignores NaN and takes every other
    number into the range from 1 to 12; a number in the range is kept as
    it is, an integer or not (2.5 stays 2.5); so the state [columns], 8 at
    first, stays in the range whatever is typed. *)
Theorem onColumnsChange_clamps :
  (forall value columns,
      PrimFloat.is_nan value = true ->
      Doubles.onColumnsChange value columns = columns)
  /\ (forall value columns,
        PrimFloat.is_nan value = false ->
        Doubles.inRange (Doubles.onColumnsChange value columns))
  /\ (forall value columns,
        Doubles.inRange value -> Doubles.onColumnsChange value columns = value)
  /\ Doubles.onColumnsChange 2.5%float 8%float = 2.5%float
  /\ (forall events, Doubles.inRange (Doubles.columnsAfter events)).
Proof.
  split; [intros value columns Hv; unfold Doubles.onColumnsChange;
          rewrite Hv; reflexivity|].
  split; [exact onColumnsChange_range|].
  split; [exact onColumnsChange_kept|].
  split; [vm_compute; reflexivity|].
  intros events. apply columnsAfter_range_from. split; reflexivity.
Qed.
